(** * Urho3D virtual file system facade (Source/Urho3D/IO/FileSystem.cpp)

    A shallow embedding of the PHYSFS-backed [FileSystem] subsystem and of the
    free path functions that live in the same translation unit, followed by
    the properties of the facade that the design document states.

    Layout:
    - the engine's byte string class, as far as FileSystem.cpp uses it;
    - path utilities ([SplitPath], [AddTrailingSlash], [GetParentPath], ...);
    - the archive backend interface ([Physfs]) and the facade state;
    - the facade operations, in source order;
    - an in-memory backend, to run the operations on concrete inputs;
    - the notions the statements use, and the concrete inputs;
    - the properties, each section ending in the theorem it is there for. *)

From Stdlib Require Import Ascii String.
From Stdlib Require Import List ZArith Lia Bool Arith.
Import ListNotations.

Set Implicit Arguments.
Unset Strict Implicit.

Local Open Scope char_scope.
Local Open Scope list_scope.

(* ================================================================== *)
(** ** The String class *)

(** Modelled from the spec: the engine's [String] class (Container/Str.h and
    Str.cpp) is not among the sources.  FileSystem.cpp uses it as a byte
    buffer with an unsigned length; the member functions below are the ones
    the file calls, each with the behaviour its name and the design document
    give it ("trim whitespace, normalize backslashes to slashes, append or
    strip a single final /").  Indexes are unsigned; [NPOS] is the "not found"
    value. *)
Definition Str := list ascii.

(** Literal strings are written with the standard string notation. *)
Definition str (s : string) : Str := list_ascii_of_string s.

(** Modelled from the spec: [String::NPOS], the largest unsigned value. *)
Definition NPOS : Z := 4294967295.

(** Modelled from the spec: [String::Length]. *)
Definition Length (s : Str) : Z := Z.of_nat (length s).

(** Modelled from the spec: [String::Empty]. *)
Definition Empty (s : Str) : bool :=
  match s with
  | [] => true
  | _ :: _ => false
  end.

(** Modelled from the spec: [String::Back], the last byte (the callers test
    [Empty] first). *)
Definition Back (s : Str) : ascii := last s zero.

(** Modelled from the spec: [String::Resize] to one byte less, the only use
    the file makes of it. *)
Definition DropBack (s : Str) : Str := removelast s.

(** Modelled from the spec: [String::Replace(char, char)] and [Replaced]:
    every occurrence of [a] becomes [b]. *)
Definition Replaced (s : Str) (a b : ascii) : Str :=
  map (fun c => if Ascii.eqb c a then b else c) s.

(** Modelled from the spec: the bytes [String::Trimmed] removes, space and
    horizontal tab. *)
Definition is_trim_char (c : ascii) : bool :=
  Ascii.eqb c " " || Ascii.eqb c "009".

Fixpoint trim_front (s : Str) : Str :=
  match s with
  | [] => []
  | c :: t => if is_trim_char c then trim_front t else s
  end.

(** The string without its trailing run of trim bytes. *)
Definition trim_back (s : Str) : Str := rev (trim_front (rev s)).

(** Modelled from the spec: [String::Trimmed], the string without its leading
    and trailing run of trim bytes. *)
Definition Trimmed (s : Str) : Str := trim_back (trim_front s).

Fixpoint prefixb (p s : Str) : bool :=
  match p, s with
  | [], _ => true
  | _ :: _, [] => false
  | a :: p', b :: s' => Ascii.eqb a b && prefixb p' s'
  end.

Fixpoint Find_from (i : Z) (s sub : Str) : Z :=
  if prefixb sub s then i
  else match s with
       | [] => NPOS
       | _ :: t => Find_from (i + 1) t sub
       end.

(** Modelled from the spec: [String::Find(const String&)], the index of the
    first occurrence of [sub], [NPOS] when there is none or [sub] is empty. *)
Definition Find (s sub : Str) : Z :=
  if Empty sub || (Length s <? Length sub)%Z then NPOS else Find_from 0 s sub.

Fixpoint occurs (sub s : Str) : bool :=
  prefixb sub s ||
  match s with
  | [] => false
  | _ :: t => occurs sub t
  end.

(** Modelled from the spec: [String::Contains(const String&)], whether [sub]
    occurs in the string (an empty [sub] is never found). *)
Definition Contains (s sub : Str) : bool := negb (Empty sub) && occurs sub s.

(** Modelled from the spec: [String::Contains(char)]. *)
Definition ContainsChar (s : Str) (c : ascii) : bool := existsb (Ascii.eqb c) s.

Fixpoint FindLast_from (i : Z) (found : Z) (s : Str) (c : ascii) : Z :=
  match s with
  | [] => found
  | x :: t => FindLast_from (i + 1) (if Ascii.eqb x c then i else found) t c
  end.

(** Modelled from the spec: [String::FindLast(char)], the index of the last
    occurrence of [c], [NPOS] when there is none. *)
Definition FindLast (s : Str) (c : ascii) : Z := FindLast_from 0 NPOS s c.

(** Modelled from the spec: [String::Substring(pos)]: the bytes from [pos]
    on, empty when [pos] is not below the length. *)
Definition Substring (s : Str) (pos : Z) : Str :=
  if (pos <? Length s)%Z then skipn (Z.to_nat pos) s else [].

(** Modelled from the spec: [String::Substring(pos, length)]: at most
    [len] bytes from [pos] on, empty when [pos] is not below the length. *)
Definition Substring2 (s : Str) (pos len : Z) : Str :=
  if (pos <? Length s)%Z then firstn (Z.to_nat len) (skipn (Z.to_nat pos) s) else [].

(** Modelled from the spec: [String::operator ==]. *)
Fixpoint Str_eqb (a b : Str) : bool :=
  match a, b with
  | [], [] => true
  | x :: a', y :: b' => Ascii.eqb x y && Str_eqb a' b'
  | _, _ => false
  end.

(** Modelled from the spec: [String::StartsWith], [Find(str) == 0]. *)
Definition StartsWith (s p : Str) : bool := negb (Empty p) && prefixb p s.

(** Modelled from the spec: [String::EndsWith] (case sensitive). *)
Definition EndsWith (s p : Str) : bool := negb (Empty p) && prefixb (rev p) (rev s).

(** Modelled from the spec: [tolower] in the C locale, for [String::ToLower]. *)
Definition lower_char (c : ascii) : ascii :=
  let n := nat_of_ascii c in
  if ((65 <=? n) && (n <=? 90))%nat then ascii_of_nat (n + 32)%nat else c.

Definition ToLower (s : Str) : Str := map lower_char s.

(** Modelled from the spec: [IsAlpha] (Container/Str.h), [isalpha] in the C
    locale. *)
Definition IsAlpha (c : ascii) : bool :=
  let n := nat_of_ascii c in
  (((65 <=? n) && (n <=? 90)) || ((97 <=? n) && (n <=? 122)))%nat.

(* ================================================================== *)
(** ** Build configuration *)

(** The preprocessor symbols that select code in FileSystem.cpp. *)
Class Build := {
  WIN32 : bool;             (* _WIN32 *)
  URHO3D_THREADING : bool   (* URHO3D_THREADING *)
}.

(* ================================================================== *)
(** ** Path utilities *)

Section PathUtilities.
Context {cfg : Build}.

Definition GetInternalPath (pathName : Str) : Str := Replaced pathName "\" "/".

Definition GetNativePath (pathName : Str) : Str :=
  if WIN32 then Replaced pathName "/" "\" else pathName.

Definition AddTrailingSlash (pathName : Str) : Str :=
  let ret := Trimmed pathName in
  let ret := Replaced ret "\" "/" in
  if negb (Empty ret) && negb (Ascii.eqb (Back ret) "/") then ret ++ ["/"] else ret.

Definition RemoveTrailingSlash (pathName : Str) : Str :=
  let ret := Trimmed pathName in
  let ret := Replaced ret "\" "/" in
  if negb (Empty ret) && Ascii.eqb (Back ret) "/" then DropBack ret else ret.

Definition GetParentPath (path : Str) : Str :=
  let pos := FindLast (RemoveTrailingSlash path) "/" in
  if negb (pos =? NPOS)%Z then Substring2 path 0 (pos + 1) else [].

(** [SplitPath] writes its three results through reference parameters; the
    model returns them as a triple (pathName, fileName, extension). *)
Definition SplitPath (fullPath : Str) (lowercaseExtension : bool) : Str * Str * Str :=
  let fullPathCopy := GetInternalPath fullPath in
  let extPos := FindLast fullPathCopy "." in
  let pathPos := FindLast fullPathCopy "/" in
  let '(extension, fullPathCopy) :=
    if negb (extPos =? NPOS)%Z && ((pathPos =? NPOS)%Z || (pathPos <? extPos)%Z)
    then (let extension := Substring fullPathCopy extPos in
          (if lowercaseExtension then ToLower extension else extension,
           Substring2 fullPathCopy 0 extPos))
    else ([], fullPathCopy) in
  let pathPos := FindLast fullPathCopy "/" in
  if negb (pathPos =? NPOS)%Z
  then (Substring2 fullPathCopy 0 (pathPos + 1), Substring fullPathCopy (pathPos + 1), extension)
  else ([], fullPathCopy, extension).

(** The header gives [lowercaseExtension] the default [true]. *)
Definition GetPath (fullPath : Str) : Str :=
  let '(path, _, _) := SplitPath fullPath true in path.

Definition IsAbsolutePath (pathName : Str) : bool :=
  if Empty pathName then false
  else
    let path := GetInternalPath pathName in
    if Ascii.eqb (nth 0 path zero) "/" then true
    else if WIN32 && (1 <? Length path)%Z && IsAlpha (nth 0 path zero)
              && Ascii.eqb (nth 1 path zero) ":"
    then true
    else false.

End PathUtilities.

Definition posix_build : Build := {| WIN32 := false; URHO3D_THREADING := true |}.
Definition windows_build : Build := {| WIN32 := true; URHO3D_THREADING := true |}.

(* ================================================================== *)
(** ** The archive backend *)

Inductive PHYSFS_FileType :=
| PHYSFS_FILETYPE_REGULAR
| PHYSFS_FILETYPE_DIRECTORY
| PHYSFS_FILETYPE_SYMLINK
| PHYSFS_FILETYPE_OTHER.

(** Modelled from the spec: the backend's stat record (physfs.h is not among
    the sources); the time stamps and the size are signed 64-bit values. *)
Record PHYSFS_Stat := {
  filesize : Z;
  modtime : Z;
  createtime : Z;
  accesstime : Z;
  filetype : PHYSFS_FileType;
  readonly : Z
}.

(** Modelled from the spec: the operations of the archive library that
    FileSystem.cpp calls, over an abstract backend state [B].  An [int] result
    is non-zero on success; a [NULL] result is [None].  The queries leave the
    state as it is, the three mutators return the new state.
    [PHYSFS_getSearchPath] lists the mounted real paths, highest priority
    first.  [PHYSFS_lastError] stands for
    [PHYSFS_getErrorByCode(PHYSFS_getLastErrorCode())]. *)
Class Physfs (B : Type) := {
  PHYSFS_getBaseDir : B -> Str;
  PHYSFS_getSearchPath : B -> list Str;
  PHYSFS_getRealDir : B -> Str -> option Str;
  PHYSFS_stat : B -> Str -> option PHYSFS_Stat;
  PHYSFS_enumerateFiles : B -> Str -> list Str;
  PHYSFS_lastError : B -> Str;
  PHYSFS_mount : B -> Str -> Str -> Z -> Z * B;
  PHYSFS_mkdir : B -> Str -> Z * B;
  PHYSFS_delete : B -> Str -> Z * B
}.

(** The mutating backend calls, in the order they were issued.  The trace is
    a ghost: the operations only ever append to it. *)
Inductive Call :=
| CallMount (newDir mountPoint : Str) (appendToPath : Z)
| CallMkdir (dirName : Str)
| CallDelete (filename : Str).

Inductive LogLevel := LOG_DEBUG | LOG_INFO | LOG_WARNING | LOG_ERROR.

Definition LogMsg : Type := LogLevel * Str.

(** What an operation of the facade can change outside the facade object:
    the backend, the engine log and the call trace. *)
Record World (B : Type) := {
  physfs : B;
  log : list LogMsg;
  calls : list Call
}.

(** State passing over [World]. *)
Definition M (B A : Type) : Type := World B -> A * World B.

Definition ret {B A} (a : A) : M B A := fun w => (a, w).

Definition bind {B A C} (m : M B A) (k : A -> M B C) : M B C :=
  fun w => let '(a, w') := m w in k a w'.

Declare Scope fs_scope.
Delimit Scope fs_scope with fs.
Notation "x <- m ;; k" := (bind m (fun x => k))
  (at level 61, m at next level, right associativity) : fs_scope.
Notation "m ;;; k" := (bind m (fun _ => k))
  (at level 61, right associativity) : fs_scope.

(** Modelled from the spec: the constants of Math/MathDefs.h and
    FileSystem.h that the file uses ("Invalid async id: MAX_UNSIGNED";
    "SCAN_FILES = 1, SCAN_DIRS = 2, SCAN_HIDDEN = 4"). *)
Definition M_MAX_UNSIGNED : Z := 4294967295.
Definition SCAN_FILES : Z := 1.
Definition SCAN_DIRS : Z := 2.
Definition SCAN_HIDDEN : Z := 4.

(** Conversions between the integer types, written out. *)
Definition to_unsigned (x : Z) : Z := (x mod 2 ^ 32)%Z.

Definition to_signed (bits : Z) (x : Z) : Z :=
  let m := (x mod 2 ^ bits)%Z in
  if (m <? 2 ^ (bits - 1))%Z then m else (m - 2 ^ bits)%Z.

(* ================================================================== *)
(** ** Asynchronous execution requests *)

Inductive AsyncKind :=
| AsyncSystemCommand (commandLine : Str)
| AsyncSystemRun (fileName : Str) (arguments : list Str).

(** The fields of [AsyncExecRequest] and the members its two subclasses add. *)
Record AsyncExecRequest := {
  requestID_ : Z;
  exitCode_ : Z;
  completed_ : bool;
  kind_ : AsyncKind
}.

(** [AsyncExecRequest::AsyncExecRequest(unsigned& requestID)].  The
    parameter is a reference: the result is the value of [requestID_] in the
    new object and the value the constructor leaves in the referenced
    variable. *)
Definition AsyncExecRequest_ctor (requestID : Z) : Z * Z :=
  let this_requestID_ := requestID in
  (* Increment ID for next request *)
  let requestID := to_unsigned (requestID + 1)%Z in
  let requestID := if (requestID =? M_MAX_UNSIGNED)%Z then 1%Z else requestID in
  (this_requestID_, requestID).

(** [AsyncSystemCommand::AsyncSystemCommand(unsigned requestID, const String&)].
    Here [requestID] is passed by value: the base constructor is given a
    reference to this parameter, and what it leaves there ends with the call. *)
Definition AsyncSystemCommand_ctor (requestID : Z) (commandLine : Str) : AsyncExecRequest :=
  let '(this_requestID_, _requestID) := AsyncExecRequest_ctor requestID in
  {| requestID_ := this_requestID_; exitCode_ := 0; completed_ := false;
     kind_ := AsyncSystemCommand commandLine |}.

(** [AsyncSystemRun::AsyncSystemRun(unsigned requestID, ...)], by value as well. *)
Definition AsyncSystemRun_ctor (requestID : Z) (fileName : Str) (arguments : list Str)
  : AsyncExecRequest :=
  let '(this_requestID_, _requestID) := AsyncExecRequest_ctor requestID in
  {| requestID_ := this_requestID_; exitCode_ := 0; completed_ := false;
     kind_ := AsyncSystemRun fileName arguments |}.

(* ================================================================== *)
(** ** The facade *)

(** The data members of [FileSystem] (declared in FileSystem.h).
    [allowedPaths_] is a [HashSet<String>]; the file only asks whether it is
    empty, inserts, and searches it for a match, so a duplicate-free list
    serves. *)
Record FileSystem := {
  allowedPaths_ : list Str;
  asyncExecQueue_ : list AsyncExecRequest;
  nextAsyncExecID_ : Z;
  executeConsoleCommands_ : bool
}.

Section Facade.
Context {cfg : Build} {B : Type} {P : Physfs B}.
Local Open Scope fs_scope.

(** *** Logging and backend access *)

Definition URHO3D_LOG (level : LogLevel) (message : Str) : M B unit :=
  fun w => (tt, {| physfs := physfs w; log := log w ++ [(level, message)]; calls := calls w |}).

Definition URHO3D_LOGERROR : Str -> M B unit := URHO3D_LOG LOG_ERROR.
Definition URHO3D_LOGINFO : Str -> M B unit := URHO3D_LOG LOG_INFO.
Definition URHO3D_LOGDEBUG : Str -> M B unit := URHO3D_LOG LOG_DEBUG.

Definition LogErrorPHYSFS (prefix fileName : Str) : M B unit :=
  fun w =>
    URHO3D_LOGERROR (prefix ++ str ": '" ++ fileName ++ str "' reason: "
                            ++ PHYSFS_lastError (physfs w)) w.

(** A backend query: the state is read, not changed. *)
Definition query {A} (f : B -> A) : M B A := fun w => (f (physfs w), w).

(** A mutating backend call: the state is replaced and the call recorded. *)
Definition mutate (c : Call) (f : B -> Z * B) : M B Z :=
  fun w => let '(r, b') := f (physfs w) in
           (r, {| physfs := b'; log := log w; calls := calls w ++ [c] |}).

(** *** Access gate *)

(** [HashSet::Empty]. *)
Definition NoPaths (allowedPaths : list Str) : bool :=
  match allowedPaths with
  | [] => true
  | _ :: _ => false
  end.

Definition CheckAccess (fs : FileSystem) (pathName : Str) : bool :=
  let fixedPath := AddTrailingSlash pathName in
  (* If no allowed directories defined, succeed always *)
  if NoPaths (allowedPaths_ fs) then true
  (* If there is any attempt to go to a parent directory, disallow *)
  else if Contains fixedPath (str "..") then false
  (* Check if the path is a partial match of any of the allowed directories *)
  else existsb (fun i => (Find fixedPath i =? 0)%Z) (allowedPaths_ fs).

Definition RegisterPath (fs : FileSystem) (pathName : Str) : FileSystem :=
  if Empty pathName then fs
  else
    let p := AddTrailingSlash pathName in
    if existsb (fun q => Str_eqb q p) (allowedPaths_ fs)
    then fs
    else {| allowedPaths_ := allowedPaths_ fs ++ [p];
            asyncExecQueue_ := asyncExecQueue_ fs;
            nextAsyncExecID_ := nextAsyncExecID_ fs;
            executeConsoleCommands_ := executeConsoleCommands_ fs |}.

(** *** Mounts *)

Definition GetRealFileDir (b : B) (fileName : Str) : Str :=
  match PHYSFS_getRealDir b fileName with
  | None => []
  | Some s => s
  end.

Definition MountArchive (fileName mountPoint : Str) (priority : bool) : M B bool :=
  let pathName := fileName in
  pathName <- (if negb (IsAbsolutePath pathName)
               then query (fun b => GetRealFileDir b pathName ++ str "/" ++ pathName)
               else ret pathName) ;;
  let pathName := GetNativePath (RemoveTrailingSlash pathName) in
  URHO3D_LOGINFO (str "Mounting PHYSFS archive: '" ++ pathName ++ str "' at '"
                      ++ mountPoint ++ str "'") ;;;
  let append := 0%Z in
  let append := if priority then 1%Z else append in
  r <- mutate (CallMount pathName mountPoint append)
              (fun b => PHYSFS_mount b pathName mountPoint append) ;;
  if (r =? 0)%Z
  then LogErrorPHYSFS (str "Failed to mount archive") pathName ;;; ret false
  else ret true.

(** *** Directories *)

Definition DirExists (fs : FileSystem) (b : B) (pathName : Str) : bool :=
  if negb (CheckAccess fs pathName) then false
  else
    let fileName := GetNativePath (RemoveTrailingSlash pathName) in
    match PHYSFS_stat b fileName with
    | Some stat =>
        match filetype stat with
        | PHYSFS_FILETYPE_DIRECTORY | PHYSFS_FILETYPE_SYMLINK => true
        | _ => false
        end
    | None => false
    end.

(** The last part of [CreateDir]: the backend call for the path itself. *)
Definition CreateDir_mkdir (pathName : Str) : M B bool :=
  let path := GetNativePath (RemoveTrailingSlash pathName) in
  r <- mutate (CallMkdir path) (fun b => PHYSFS_mkdir b path) ;;
  let success := negb (r =? 0)%Z in
  if success
  then URHO3D_LOGDEBUG (str "Created directory " ++ path) ;;; ret success
  else LogErrorPHYSFS (str "Failed to create directory") path ;;; ret success.

(** [CreateDir] calls itself on the parent path; [fuel] bounds the depth of
    that recursion, and [None] means the bound was reached. *)
Fixpoint CreateDir (fuel : nat) (fs : FileSystem) (pathName : Str) (w : World B)
  {struct fuel} : option (bool * World B) :=
  match fuel with
  | O => None
  | S fuel' =>
      if negb (CheckAccess fs pathName)
      then Some ((URHO3D_LOGERROR (str "Access denied to " ++ pathName) ;;; ret false) w)
      else
        (* Create each of the parents if necessary *)
        let parentPath := GetParentPath pathName in
        let parents :=
          if (1 <? Length parentPath)%Z && negb (DirExists fs (physfs w) parentPath)
          then CreateDir fuel' fs parentPath w
          else Some (true, w) in
        match parents with
        | None => None
        | Some (false, w1) => Some (false, w1)
        | Some (true, w1) => Some (CreateDir_mkdir pathName w1)
        end
  end.

(** *** External execution *)

Definition enqueue (fs : FileSystem) (cmd : AsyncExecRequest) (next : Z) : FileSystem :=
  {| allowedPaths_ := allowedPaths_ fs;
     asyncExecQueue_ := asyncExecQueue_ fs ++ [cmd];
     nextAsyncExecID_ := next;
     executeConsoleCommands_ := executeConsoleCommands_ fs |}.

(** The constructors take [nextAsyncExecID_] by value, so the member keeps
    its value across the call. *)
Definition SystemCommandAsync (fs : FileSystem) (commandLine : Str) : M B (Z * FileSystem) :=
  if URHO3D_THREADING then
    if NoPaths (allowedPaths_ fs) then
      let requestID := nextAsyncExecID_ fs in
      let cmd := AsyncSystemCommand_ctor (nextAsyncExecID_ fs) commandLine in
      ret (requestID, enqueue fs cmd (nextAsyncExecID_ fs))
    else
      URHO3D_LOGERROR (str "Executing an external command is not allowed") ;;;
      ret (M_MAX_UNSIGNED, fs)
  else
    URHO3D_LOGERROR (str "Can not execute an asynchronous command as threading is disabled") ;;;
    ret (M_MAX_UNSIGNED, fs).

Definition SystemRunAsync (fs : FileSystem) (fileName : Str) (arguments : list Str)
  : M B (Z * FileSystem) :=
  if URHO3D_THREADING then
    if NoPaths (allowedPaths_ fs) then
      let requestID := nextAsyncExecID_ fs in
      let cmd := AsyncSystemRun_ctor (nextAsyncExecID_ fs) fileName arguments in
      ret (requestID, enqueue fs cmd (nextAsyncExecID_ fs))
    else
      URHO3D_LOGERROR (str "Executing an external command is not allowed") ;;;
      ret (M_MAX_UNSIGNED, fs)
  else
    URHO3D_LOGERROR (str "Can not run asynchronously as threading is disabled") ;;;
    ret (M_MAX_UNSIGNED, fs).

Definition SystemOpen (fileName mode : Str) : M B bool :=
  URHO3D_LOGERROR (str "SYSTEM OPEN IS NOT IMPLEMENTED - THANK YOU") ;;;
  ret false.

(** *** Files *)

Definition Delete (fs : FileSystem) (fileName : Str) : M B bool :=
  if negb (CheckAccess fs (GetPath fileName))
  then URHO3D_LOGERROR (str "Access denied to " ++ fileName) ;;; ret false
  else
    r <- mutate (CallDelete fileName) (fun b => PHYSFS_delete b fileName) ;;
    if (r =? 0)%Z
    then LogErrorPHYSFS (str "Failed to delete file") fileName ;;; ret true
    else ret false.

Definition GetCurrentDir (b : B) : Str := PHYSFS_getBaseDir b.

(** [return (long)stat.modtime;] in a function that returns [unsigned]: the
    signed 64-bit [modtime] is converted to [long] (32 bits on Windows, 64
    bits on the other 64-bit targets) and then to the 32-bit return type. *)
Definition GetLastModifiedTime (fs : FileSystem) (b : B) (fileName : Str) : Z :=
  if Empty fileName || negb (CheckAccess fs fileName) then 0%Z
  else
    match PHYSFS_stat b fileName with
    | Some stat => to_unsigned (to_signed (if WIN32 then 32 else 64) (modtime stat))
    | None => 0%Z
    end.

(** The source also walks the search path into a string it never uses; the
    walk reads the backend only and is left out. *)
Definition FileExists (fs : FileSystem) (b : B) (fileName : Str) : bool :=
  if negb (CheckAccess fs (GetPath fileName)) then false
  else
    match PHYSFS_stat b fileName with
    | Some stat =>
        match filetype stat with
        | PHYSFS_FILETYPE_REGULAR | PHYSFS_FILETYPE_SYMLINK => true
        | _ => false
        end
    | None => false
    end.

Definition GetProgramDir (b : B) : Str := PHYSFS_getBaseDir b.

(** *** Directory scan *)

Definition has_flag (flags flag : Z) : bool := negb (Z.land flags flag =? 0)%Z.

(** What the loop of [ScanDirInternal] does with an entry that passed the
    hidden-entry test.  [rec] is the recursive call. *)
Definition ScanVisibleEntry
    (rec : list Str -> Str -> option (list Str))
    (b : B) (result : list Str) (path deltaPath filterExtension : Str)
    (flags : Z) (recursive : bool) (fileName : Str) : option (list Str) :=
  let pathAndName := path ++ str "/" ++ fileName in
  match PHYSFS_stat b pathAndName with
  | Some stat =>
      match filetype stat with
      | PHYSFS_FILETYPE_DIRECTORY =>
          let result := if has_flag flags SCAN_DIRS
                        then result ++ [deltaPath ++ fileName] else result in
          if recursive then rec result (path ++ fileName) else Some result
      | _ =>
          if has_flag flags SCAN_FILES
          then (if Empty filterExtension || EndsWith fileName filterExtension
                then Some (result ++ [deltaPath ++ fileName])
                else Some result)
          else Some result
      end
  | None => Some result
  end.

(** One iteration of the loop of [ScanDirInternal]. *)
Definition ScanEntry
    (rec : list Str -> Str -> option (list Str))
    (b : B) (result : list Str) (path deltaPath filterExtension : Str)
    (flags : Z) (recursive : bool) (fileName : Str) : option (list Str) :=
  if StartsWith fileName (str ".") && negb (has_flag flags SCAN_HIDDEN)
  then Some result   (* continue *)
  else ScanVisibleEntry rec b result path deltaPath filterExtension flags recursive fileName.

(** The loop over the backend's listing. *)
Definition ScanEntries
    (rec : list Str -> Str -> option (list Str))
    (b : B) (path deltaPath filterExtension : Str)
    (flags : Z) (recursive : bool) (array : list Str) (result : list Str)
  : option (list Str) :=
  fold_left
    (fun acc fileName =>
       match acc with
       | None => None
       | Some result =>
           ScanEntry rec b result path deltaPath filterExtension flags recursive fileName
       end)
    array (Some result).

(** [ScanDirInternal] descends into every directory it meets; [fuel] bounds
    the depth, [None] means the bound was reached.  The vector [result] is
    passed in and returned. *)
Fixpoint ScanDirInternal (fuel : nat) (b : B) (result : list Str) (path startPath filter : Str)
    (flags : Z) (recursive : bool) {struct fuel} : option (list Str) :=
  match fuel with
  | O => None
  | S fuel' =>
      let path := AddTrailingSlash path in
      let deltaPath :=
        if (Length startPath <? Length path)%Z
        then Substring path (Length startPath) else [] in
      let filterExtension := Substring filter (FindLast filter ".") in
      let filterExtension :=
        if ContainsChar filterExtension "*" then [] else filterExtension in
      let path := GetNativePath path in
      ScanEntries
        (fun result path' => ScanDirInternal fuel' b result path' startPath filter flags recursive)
        b path deltaPath filterExtension flags recursive
        (PHYSFS_enumerateFiles b path) result
  end.

Definition ScanDir (fuel : nat) (fs : FileSystem) (b : B) (pathName filter : Str)
    (flags : Z) (recursive : bool) : option (list Str) :=
  let result := [] in   (* result.Clear() *)
  if CheckAccess fs pathName
  then
    let initialPath := AddTrailingSlash pathName in
    ScanDirInternal fuel b result initialPath initialPath filter flags recursive
  else Some result.

End Facade.

(* ================================================================== *)
(** ** An in-memory backend *)

Module MemFS.

(** Modelled from the spec: a backend that keeps the virtual tree in
    memory, after the contract table of the archive backend adapter
    ("mount: adds to search path; append=true -> lowest priority, false ->
    highest; fails if real unreadable", "mkdir: creates directory",
    "delete: removes a file or empty directory", "enumerate: names in a
    virtual directory", "stat: looks up first match").  A virtual path is
    the list of its non-empty segments. *)
Record t := {
  base_dir : Str;
  real_dirs : list (Str * Str);
  nodes : list (list Str * PHYSFS_Stat);
  search_path : list (Str * Str);
  readable : list Str;
  last_error : Str
}.

Fixpoint segments_from (cur : Str) (s : Str) : list Str :=
  match s with
  | [] => if Empty cur then [] else [rev cur]
  | c :: rest =>
      if Ascii.eqb c "/"
      then (if Empty cur then segments_from [] rest else rev cur :: segments_from [] rest)
      else segments_from (c :: cur) rest
  end.

Definition segments (s : Str) : list Str := segments_from [] s.

Fixpoint path_eqb (a b : list Str) : bool :=
  match a, b with
  | [], [] => true
  | x :: a', y :: b' => Str_eqb x y && path_eqb a' b'
  | _, _ => false
  end.

Definition make_stat (ft : PHYSFS_FileType) (mtime : Z) : PHYSFS_Stat :=
  {| filesize := 0; modtime := mtime; createtime := mtime; accesstime := mtime;
     filetype := ft; readonly := 0 |}.

Definition lookup (b : t) (k : list Str) : option PHYSFS_Stat :=
  match k with
  | [] => Some (make_stat PHYSFS_FILETYPE_DIRECTORY 0)
  | _ => option_map snd (find (fun e => path_eqb (fst e) k) (nodes b))
  end.

Definition children (b : t) (k : list Str) : list Str :=
  flat_map (fun e => match rev (fst e) with
                     | name :: rparent => if path_eqb (rev rparent) k then [name] else []
                     | [] => []
                     end) (nodes b).

Definition with_nodes (b : t) (ns : list (list Str * PHYSFS_Stat)) (err : Str) : t :=
  {| base_dir := base_dir b; real_dirs := real_dirs b; nodes := ns;
     search_path := search_path b; readable := readable b; last_error := err |}.

Definition with_search_path (b : t) (sp : list (Str * Str)) : t :=
  {| base_dir := base_dir b; real_dirs := real_dirs b; nodes := nodes b;
     search_path := sp; readable := readable b; last_error := last_error b |}.

Definition stat (b : t) (p : Str) : option PHYSFS_Stat := lookup b (segments p).

Definition enumerate (b : t) (p : Str) : list Str := children b (segments p).

Definition mkdir (b : t) (p : Str) : Z * t :=
  let k := segments p in
  match lookup b k with
  | Some st =>
      match filetype st with
      | PHYSFS_FILETYPE_DIRECTORY => (1%Z, b)
      | _ => (0%Z, with_nodes b (nodes b) (str "file exists"))
      end
  | None => (1%Z, with_nodes b (nodes b ++ [(k, make_stat PHYSFS_FILETYPE_DIRECTORY 1)])
                             (last_error b))
  end.

Definition delete (b : t) (p : Str) : Z * t :=
  let k := segments p in
  match k, find (fun e => path_eqb (fst e) k) (nodes b), children b k with
  | _ :: _, Some _, [] =>
      (1%Z, with_nodes b (filter (fun e => negb (path_eqb (fst e) k)) (nodes b)) (last_error b))
  | _, Some _, _ :: _ => (0%Z, with_nodes b (nodes b) (str "directory not empty"))
  | _, _, _ => (0%Z, with_nodes b (nodes b) (str "not found"))
  end.

Definition mount (b : t) (real mountPoint : Str) (appendToPath : Z) : Z * t :=
  if negb (existsb (Str_eqb real) (readable b))
  then (0%Z, with_nodes b (nodes b) (str "not found"))
  else if existsb (fun e => Str_eqb real (fst e)) (search_path b)
  then (1%Z, b)
  else if (appendToPath =? 0)%Z
  then (1%Z, with_search_path b ((real, mountPoint) :: search_path b))
  else (1%Z, with_search_path b (search_path b ++ [(real, mountPoint)])).

Definition real_dir (b : t) (p : Str) : option Str :=
  option_map snd (find (fun e => Str_eqb (fst e) p) (real_dirs b)).

Definition backend : Physfs t := {|
  PHYSFS_getBaseDir := base_dir;
  PHYSFS_getSearchPath := fun b => map fst (search_path b);
  PHYSFS_getRealDir := real_dir;
  PHYSFS_stat := stat;
  PHYSFS_enumerateFiles := enumerate;
  PHYSFS_lastError := last_error;
  PHYSFS_mount := mount;
  PHYSFS_mkdir := mkdir;
  PHYSFS_delete := delete
|}.

Definition file (p : string) (mtime : Z) : list Str * PHYSFS_Stat :=
  (segments (str p), make_stat PHYSFS_FILETYPE_REGULAR mtime).

Definition dir (p : string) : list Str * PHYSFS_Stat :=
  (segments (str p), make_stat PHYSFS_FILETYPE_DIRECTORY 1).

Definition make (ns : list (list Str * PHYSFS_Stat)) : t :=
  {| base_dir := str "/opt/game/"; real_dirs := []; nodes := ns;
     search_path := []; readable := [str "/opt/game/A.zip"; str "/opt/game/B.zip"];
     last_error := str "no error" |}.

Definition world (b : t) : World t := {| physfs := b; log := []; calls := [] |}.

End MemFS.

(* ================================================================== *)
(** ** More of FileSystem.cpp *)

(** *** The remaining path functions *)

(** [GetFileName] and [ReplaceExtension] call [SplitPath] with its default
    [lowercaseExtension = true]; [GetExtension] and
    [GetFileNameAndExtension] pass their own flag on. *)
Definition GetFileName (fullPath : Str) : Str :=
  let '(_, file, _) := SplitPath fullPath true in file.

Definition GetExtension (fullPath : Str) (lowercaseExtension : bool) : Str :=
  let '(_, _, extension) := SplitPath fullPath lowercaseExtension in extension.

Definition GetFileNameAndExtension (fileName : Str) (lowercaseExtension : bool) : Str :=
  let '(_, file, extension) := SplitPath fileName lowercaseExtension in file ++ extension.

Definition ReplaceExtension (fullPath newExtension : Str) : Str :=
  let '(path, file, _) := SplitPath fullPath true in path ++ file ++ newExtension.

Section TemporaryDir.
Context {cfg : Build}.

(** [FileSystem::GetTemporaryDir].  [MINI_URHO] is the preprocessor symbol
    of that name, which selects code on Windows only.  What the host answers
    is a parameter: [TMP] and [TMPDIR] are the values of these environment
    variables ([None] when [getenv] returns [NULL]; the [String] made from a
    null pointer is empty), [tempPathW] is the string [GetTempPathW] writes,
    [P_tmpdir] the macro of that name when <stdio.h> defines it. *)
Definition GetTemporaryDir (MINI_URHO : bool) (TMP : option Str) (tempPathW : Str)
    (TMPDIR P_tmpdir : option Str) : Str :=
  if WIN32 then
    if MINI_URHO
    then match TMP with
         | Some pathName => pathName
         | None => []
         end
    else AddTrailingSlash tempPathW
  else
    match TMPDIR with
    | Some pathName => AddTrailingSlash pathName
    | None =>
        match P_tmpdir with
        | Some dir => AddTrailingSlash dir
        | None => str "/tmp/"
        end
    end.

End TemporaryDir.

(** *** The drain of the asynchronous queue *)

(** The data of an [E_ASYNCEXECFINISHED] event. *)
Record AsyncExecFinished := {
  P_REQUESTID : Z;
  P_EXITCODE : Z
}.

(** The loop of [FileSystem::HandleBeginFrame] over the queue: a completed
    request is posted and erased, any other is stepped over.  The result is
    the events sent, in the order they were sent, and the queue that is left. *)
Fixpoint drain_queue (queue : list AsyncExecRequest)
  : list AsyncExecFinished * list AsyncExecRequest :=
  match queue with
  | [] => ([], [])
  | request :: rest =>
      let '(events, pending) := drain_queue rest in
      if completed_ request
      then ({| P_REQUESTID := requestID_ request; P_EXITCODE := exitCode_ request |} :: events,
            pending)
      else (events, request :: pending)
  end.

Definition HandleBeginFrame (fs : FileSystem) : list AsyncExecFinished * FileSystem :=
  let '(events, pending) := drain_queue (asyncExecQueue_ fs) in
  (events,
   {| allowedPaths_ := allowedPaths_ fs;
      asyncExecQueue_ := pending;
      nextAsyncExecID_ := nextAsyncExecID_ fs;
      executeConsoleCommands_ := executeConsoleCommands_ fs |}).

(** What a worker thread does to its request when the command has ended
    ([ThreadFunction]): the exit code is stored and the flag raised. *)
Definition complete (exitCode : Z) (request : AsyncExecRequest) : AsyncExecRequest :=
  {| requestID_ := requestID_ request; exitCode_ := exitCode; completed_ := true;
     kind_ := kind_ request |}.

(** *** Synchronous execution *)

Section Execution.
Context {cfg : Build} {B : Type} {P : Physfs B}.
Local Open Scope fs_scope.

(** [DoSystemCommand] and [DoSystemRun] hand the command to the host
    ([system], [popen], [fork] and [execvp], [CreateProcessW]); what the host
    does is outside the model, so the two are parameters here. *)
Variable DoSystemCommand : Str -> bool -> M B Z.
Variable DoSystemRun : Str -> list Str -> M B Z.

Definition SystemCommand (fs : FileSystem) (commandLine : Str) (redirectStdOutToLog : bool)
  : M B Z :=
  if NoPaths (allowedPaths_ fs)
  then DoSystemCommand commandLine redirectStdOutToLog
  else
    URHO3D_LOGERROR (str "Executing an external command is not allowed") ;;;
    ret (-1)%Z.

Definition SystemRun (fs : FileSystem) (fileName : Str) (arguments : list Str) : M B Z :=
  if NoPaths (allowedPaths_ fs)
  then DoSystemRun fileName arguments
  else
    URHO3D_LOGERROR (str "Executing an external command is not allowed") ;;;
    ret (-1)%Z.

(** [GetTypeName()] of the facade is the class name. *)
Definition HandleConsoleCommand (fs : FileSystem) (P_ID P_COMMAND : Str) : M B unit :=
  if Str_eqb P_ID (str "FileSystem")
  then SystemCommand fs P_COMMAND true ;;; ret tt
  else ret tt.

End Execution.

(** *** Copying and renaming *)

Section Copying.
Context {cfg : Build} {B : Type} {P : Physfs B}.
Local Open Scope fs_scope.

(** The part of [Copy] after the two access checks opens both files through
    the engine's [File] class, reads the source and writes the destination;
    it is a parameter here, with the answer [Copy] returns from it. *)
Variable CopyData : Str -> Str -> M B bool.

Definition Copy (fs : FileSystem) (srcFileName destFileName : Str) : M B bool :=
  if negb (CheckAccess fs (GetPath srcFileName))
  then URHO3D_LOGERROR (str "Access denied to " ++ srcFileName) ;;; ret false
  else if negb (CheckAccess fs (GetPath destFileName))
  then URHO3D_LOGERROR (str "Access denied to " ++ destFileName) ;;; ret false
  else CopyData srcFileName destFileName.

Definition Rename (fs : FileSystem) (srcFileName destFileName : Str) : M B bool :=
  if negb (CheckAccess fs (GetPath srcFileName))
  then URHO3D_LOGERROR (str "Access denied to " ++ srcFileName) ;;; ret false
  else if negb (CheckAccess fs (GetPath destFileName))
  then URHO3D_LOGERROR (str "Access denied to " ++ destFileName) ;;; ret false
  else
    copied <- Copy fs srcFileName destFileName ;;
    if copied then Delete fs srcFileName else ret false.

End Copying.

(** *** Notions used in the further statements *)

(** A string in the form [AddTrailingSlash] and [RemoveTrailingSlash] work
    on: trimmed at both ends, and without backslash. *)
Definition normal_form (t : Str) : Prop :=
  trim_front t = t /\ trim_back t = t /\ Replaced t "\" "/" = t.

(** The value [AsyncExecRequest]'s constructor leaves in the counter it was
    given by reference. *)
Definition next_request_id (requestID : Z) : Z := snd (AsyncExecRequest_ctor requestID).

(** The event [HandleBeginFrame] sends for a request. *)
Definition finished_event (request : AsyncExecRequest) : AsyncExecFinished :=
  {| P_REQUESTID := requestID_ request; P_EXITCODE := exitCode_ request |}.

(** The extension [ScanDirInternal] filters file names with: the text of
    [filter] from its last dot on, and nothing when that text has a star. *)
Definition filter_extension (filter : Str) : Str :=
  let filterExtension := Substring filter (FindLast filter ".") in
  if ContainsChar filterExtension "*" then [] else filterExtension.

Section MoreNotions.
Context {cfg : Build} {B : Type} {P : Physfs B}.

(** Whether the loop of [ScanDirInternal], listing [path], pushes a name. *)
Definition scan_pushes (b : B) (path filterExtension : Str) (flags : Z) (fileName : Str)
  : bool :=
  negb (StartsWith fileName (str ".") && negb (has_flag flags SCAN_HIDDEN)) &&
  match PHYSFS_stat b (path ++ str "/" ++ fileName) with
  | Some stat =>
      match filetype stat with
      | PHYSFS_FILETYPE_DIRECTORY => has_flag flags SCAN_DIRS
      | _ => has_flag flags SCAN_FILES
             && (Empty filterExtension || EndsWith fileName filterExtension)
      end
  | None => false
  end.

(** A result string that stands for an entry the flags and the filter let
    through: the name of an entry of a listing, prefixed with a relative
    path; a directory when [SCAN_DIRS] is set, anything else when
    [SCAN_FILES] is set and the name ends with the filter extension. *)
Definition reports_entry (b : B) (filterExtension : Str) (flags : Z) (r : Str) : Prop :=
  exists deltaPath path fileName stat,
    r = deltaPath ++ fileName
    /\ In fileName (PHYSFS_enumerateFiles b path)
    /\ PHYSFS_stat b (path ++ str "/" ++ fileName) = Some stat
    /\ match filetype stat with
       | PHYSFS_FILETYPE_DIRECTORY => has_flag flags SCAN_DIRS = true
       | _ => has_flag flags SCAN_FILES = true
              /\ (filterExtension = [] \/ EndsWith r filterExtension = true)
       end.

(** A [PHYSFS_mkdir] call for the native form of a path that passes
    [CheckAccess]. *)
Definition mkdir_allowed (fs : FileSystem) (c : Call) : Prop :=
  exists q, c = CallMkdir (GetNativePath (RemoveTrailingSlash q)) /\ CheckAccess fs q = true.

End MoreNotions.

(* ================================================================== *)
(** ** Notions used in the statements *)

(** The byte [Replace('\\', '/')] puts in the place of [c]. *)
Definition replace_backslash (c : ascii) : ascii := if Ascii.eqb c "\" then "/" else c.

(** Whether a string ends in a slash, a space or a tab. *)
Definition ends_in_slash_or_blank (s : Str) : bool :=
  match rev s with
  | [] => false
  | c :: _ => Ascii.eqb c "/" || is_trim_char c
  end.

(** A [PHYSFS_mkdir] call for a directory name shorter than [n]. *)
Definition mkdir_below (n : nat) (c : Call) : Prop :=
  exists d, c = CallMkdir d /\ (length d < n)%nat.

(** The backend with every name that starts with a dot removed from its
    directory listings; everything else answers as before. *)
Definition without_hidden {B : Type} (P : Physfs B) : Physfs B := {|
  PHYSFS_getBaseDir := PHYSFS_getBaseDir;
  PHYSFS_getSearchPath := PHYSFS_getSearchPath;
  PHYSFS_getRealDir := PHYSFS_getRealDir;
  PHYSFS_stat := PHYSFS_stat;
  PHYSFS_enumerateFiles :=
    fun b path => filter (fun name => negb (StartsWith name (str ".")))
                         (PHYSFS_enumerateFiles b path);
  PHYSFS_lastError := PHYSFS_lastError;
  PHYSFS_mount := PHYSFS_mount;
  PHYSFS_mkdir := PHYSFS_mkdir;
  PHYSFS_delete := PHYSFS_delete
|}.

(** Modelled from the spec: the adapter contract of the backend's mount,
    "adds to search path; append=true -> lowest priority, false -> highest":
    a successful mount of a path that is not yet in the search path puts it
    last when [appendToPath] is non-zero and first when it is zero. *)
Definition mount_contract {B : Type} (P : Physfs B) : Prop :=
  forall (b : B) (newDir mountPoint : Str) (appendToPath : Z),
    fst (PHYSFS_mount b newDir mountPoint appendToPath) <> 0%Z ->
    ~ In newDir (PHYSFS_getSearchPath b) ->
    PHYSFS_getSearchPath (snd (PHYSFS_mount b newDir mountPoint appendToPath))
    = if (appendToPath =? 0)%Z
      then newDir :: PHYSFS_getSearchPath b
      else PHYSFS_getSearchPath b ++ [newDir].

Section Notions.
Context {cfg : Build} {B : Type} {P : Physfs B}.

(** The path [MountArchive] hands to the backend. *)
Definition mounted_path (b : B) (fileName : Str) : Str :=
  GetNativePath
    (RemoveTrailingSlash
       (if IsAbsolutePath fileName then fileName
        else GetRealFileDir b fileName ++ str "/" ++ fileName)).

(** A result string that stands for an entry whose name does not begin
    with a dot: the name of an entry of some listing of the backend,
    prefixed with a relative path. *)
Definition names_visible_entry (b : B) (r : Str) : Prop :=
  exists deltaPath dir fileName,
    r = deltaPath ++ fileName
    /\ In fileName (PHYSFS_enumerateFiles b dir)
    /\ StartsWith fileName (str ".") = false.

Definition extends_visibly (b : B) (result result' : list Str) : Prop :=
  exists added, result' = result ++ added /\ Forall (names_visible_entry b) added.

End Notions.

(* ================================================================== *)
(** ** Concrete inputs *)

(** Modelled from the spec: a facade as its constructor leaves it, with no
    allowed paths, an empty queue and 1 as the first request id (the member
    initialisers are in FileSystem.h; ids are "never 0" and wrap to 1). *)
Definition new_FileSystem : FileSystem :=
  {| allowedPaths_ := []; asyncExecQueue_ := [];
     nextAsyncExecID_ := 1; executeConsoleCommands_ := true |}.

(** A facade restricted to [/safe/]. *)
Definition restricted_fs : FileSystem := RegisterPath new_FileSystem (str "/safe").

(** Worlds over the in-memory backend: an empty tree, a tree with one saved
    file, the same with a chosen time stamp, and one with an archive mounted. *)
Definition empty_world : World MemFS.t := MemFS.world (MemFS.make []).

Definition save_world : World MemFS.t :=
  MemFS.world (MemFS.make [MemFS.dir "save"; MemFS.file "save/old.dat" 1700000000]).

Definition stamped_world (mtime : Z) : MemFS.t :=
  MemFS.make [MemFS.dir "save"; MemFS.file "save/old.dat" mtime].

Definition two_archives : World MemFS.t :=
  snd (MountArchive (cfg := posix_build) (P := MemFS.backend)
         (str "/opt/game/A.zip") (str "") false empty_world).

(** The directory of the scan scenario of the design document. *)
Definition scan_scenario : MemFS.t :=
  MemFS.make [MemFS.file "a.png" 10; MemFS.file "b.PNG" 11; MemFS.file "c.jpg" 12;
              MemFS.file ".hidden.png" 13; MemFS.dir "sub"; MemFS.file "sub/d.png" 14].

(** A tree with a hidden directory [.git] and, beside it, a directory whose
    name is [.git] after a blank. *)
Definition blank_dot_scenario : MemFS.t :=
  MemFS.make [MemFS.dir " .git"; MemFS.file " .git/notes.txt" 20;
              MemFS.dir ".git"; MemFS.file ".git/config" 21].

(* ================================================================== *)
(** * Properties *)

(** ** The model at work *)

Example RemoveTrailingSlash_ex :
     RemoveTrailingSlash (str "  Data\Textures\ ") = str "Data/Textures"
  /\ AddTrailingSlash (str "Data") = str "Data/"
  /\ AddTrailingSlash (str "") = str ""
  /\ GetParentPath (str "a/b/c") = str "a/b/"
  /\ GetParentPath (str "/a") = str "/"
  /\ GetParentPath (str "/") = str ""
  /\ GetPath (str "dir/sub/file.TXT") = str "dir/sub/"
  /\ SplitPath (str "dir/sub/file.TXT") true = (str "dir/sub/", str "file", str ".txt")
  /\ SplitPath (str "dir.d/file") true = (str "dir.d/", str "file", str "").
Proof. vm_compute. repeat split. Qed.

Example ScanDir_scenario :
     ScanDir (cfg := posix_build) (P := MemFS.backend) 5 new_FileSystem scan_scenario
             (str "/") (str "*.png") SCAN_FILES true
     = Some [str "a.png"; str "sub/d.png"]
  /\ ScanDir (cfg := posix_build) (P := MemFS.backend) 5 new_FileSystem scan_scenario
             (str "/") (str "*.png") (Z.lor SCAN_FILES SCAN_HIDDEN) true
     = Some [str "a.png"; str ".hidden.png"; str "sub/d.png"]
  /\ ScanDir (cfg := posix_build) (P := MemFS.backend) 5 new_FileSystem scan_scenario
             (str "/") (str "*.png") SCAN_FILES false
     = Some [str "a.png"].
Proof. vm_compute. repeat split. Qed.

(* ================================================================== *)
(** ** Facts about the string operations *)

Section StrFacts.

Lemma prefixb_spec (p s : Str) :
  prefixb p s = true <-> exists r, s = p ++ r.
Proof.
  revert s; induction p as [|a p IH]; intros s; simpl.
  - split; [intros _; now exists s | reflexivity].
  - destruct s as [|b s].
    + split; [discriminate | intros [r Hr]; discriminate].
    + rewrite andb_true_iff, Ascii.eqb_eq, IH. split.
      * intros [-> [r ->]]. now exists r.
      * intros [r Hr]. injection Hr as -> ->. split; [reflexivity | now exists r].
Qed.

Lemma occurs_spec (sub s : Str) :
  occurs sub s = true <-> exists l r, s = l ++ sub ++ r.
Proof.
  induction s as [|c s IH]; simpl.
  - rewrite orb_false_r, prefixb_spec. split.
    + intros [r Hr]. now exists [], r.
    + intros [l [r Hr]]. destruct l; [now exists r | discriminate].
  - rewrite orb_true_iff, prefixb_spec, IH. split.
    + intros [[r Hr] | [l [r Hr]]].
      * now exists [], r.
      * exists (c :: l), r. now rewrite Hr.
    + intros [[|x l] [r Hr]].
      * left. now exists r.
      * right. injection Hr as _ ->. now exists l, r.
Qed.

Lemma Replaced_app (s t : Str) (a b : ascii) :
  Replaced (s ++ t) a b = Replaced s a b ++ Replaced t a b.
Proof. apply map_app. Qed.

Lemma Replaced_length (s : Str) (a b : ascii) :
  length (Replaced s a b) = length s.
Proof. apply length_map. Qed.

Lemma trim_front_keep (l r : Str) (c : ascii) :
  is_trim_char c = false -> trim_front (l ++ c :: r) = trim_front l ++ c :: r.
Proof.
  intros Hc. induction l as [|x l IH]; simpl.
  - now rewrite Hc.
  - destruct (is_trim_char x); [exact IH | reflexivity].
Qed.

Lemma trim_front_length (s : Str) : (length (trim_front s) <= length s)%nat.
Proof.
  induction s as [|c s IH]; simpl; [lia|].
  destruct (is_trim_char c); simpl; lia.
Qed.

Lemma DropBack_length (s : Str) : (length (DropBack s) <= length s)%nat.
Proof.
  unfold DropBack. rewrite removelast_firstn_len, length_firstn. lia.
Qed.

Lemma snoc_cases (s : Str) : s = [] \/ exists s' x, s = s' ++ [x].
Proof.
  destruct (rev s) as [|x r] eqn:E.
  - left. apply (f_equal (@rev ascii)) in E. now rewrite rev_involutive in E.
  - right. exists (rev r), x.
    apply (f_equal (@rev ascii)) in E. now rewrite rev_involutive in E.
Qed.

Lemma Trimmed_unfold (s : Str) : Trimmed s = trim_back (trim_front s).
Proof. reflexivity. Qed.

Lemma trim_back_snoc (s : Str) (x : ascii) :
  trim_back (s ++ [x]) = if is_trim_char x then trim_back s else s ++ [x].
Proof.
  unfold trim_back. rewrite rev_unit. simpl.
  destruct (is_trim_char x); [reflexivity|].
  simpl. now rewrite rev_involutive.
Qed.

Lemma trim_back_nil : trim_back [] = [].
Proof. reflexivity. Qed.

Lemma trim_back_length (s : Str) : (length (trim_back s) <= length s)%nat.
Proof.
  unfold trim_back. rewrite length_rev.
  etransitivity; [apply trim_front_length|]. now rewrite length_rev.
Qed.

Lemma trim_back_keep (l r : Str) (c : ascii) :
  is_trim_char c = false -> trim_back (l ++ c :: r) = l ++ c :: trim_back r.
Proof.
  intros Hc. unfold trim_back.
  rewrite rev_app_distr. simpl. rewrite <- app_assoc. simpl.
  rewrite trim_front_keep by exact Hc.
  rewrite rev_app_distr. simpl. rewrite rev_involutive, <- app_assoc. reflexivity.
Qed.

Lemma Trimmed_length (s : Str) : (length (Trimmed s) <= length s)%nat.
Proof.
  rewrite Trimmed_unfold.
  etransitivity; [apply trim_back_length | apply trim_front_length].
Qed.

(** Trimming keeps everything between two bytes that are not trim bytes. *)
Lemma Trimmed_keep (l m r : Str) (c d : ascii) :
  is_trim_char c = false -> is_trim_char d = false ->
  Trimmed (l ++ c :: m ++ d :: r) = trim_front l ++ c :: m ++ d :: trim_back r.
Proof.
  intros Hc Hd. rewrite Trimmed_unfold, trim_front_keep by exact Hc.
  replace (trim_front l ++ c :: m ++ d :: r) with ((trim_front l ++ c :: m) ++ d :: r)
    by (rewrite <- app_assoc; reflexivity).
  rewrite trim_back_keep by exact Hd. rewrite <- app_assoc. reflexivity.
Qed.

End StrFacts.

(* ================================================================== *)
(** ** The access gate *)

Section AccessGate.

Lemma occurs_dotdot_AddTrailingSlash (p : Str) :
  occurs (str "..") p = true -> occurs (str "..") (AddTrailingSlash p) = true.
Proof.
  rewrite !occurs_spec. intros [l [r ->]].
  change (l ++ str ".." ++ r) with (l ++ "." :: [] ++ "." :: r).
  unfold AddTrailingSlash.
  rewrite Trimmed_keep by reflexivity.
  rewrite Replaced_app. simpl.
  set (l' := Replaced (trim_front l) "\" "/").
  set (r' := Replaced (trim_back r) "\" "/").
  destruct (negb (Empty (l' ++ "." :: "." :: r')) &&
            negb (Ascii.eqb (Back (l' ++ "." :: "." :: r')) "/")).
  - exists l', (r' ++ ["/"]). now rewrite <- app_assoc.
  - now exists l', r'.
Qed.

(** **** C3: with a non-empty set of allowed paths, a path that contains
    [..] is refused by [CheckAccess]; the [..] is still there in the
    normalised path that [CheckAccess] inspects (it is not stripped). *)
Theorem CheckAccess_refuses_parent_reference (fs : FileSystem) (p : Str) :
  allowedPaths_ fs <> [] ->
  Contains p (str "..") = true ->
  Contains (AddTrailingSlash p) (str "..") = true /\ CheckAccess fs p = false.
Proof.
  intros Hne Hdots.
  assert (H : Contains (AddTrailingSlash p) (str "..") = true).
  { unfold Contains in *. simpl in *. now apply occurs_dotdot_AddTrailingSlash. }
  split; [exact H|].
  unfold CheckAccess. destruct (allowedPaths_ fs) as [|a rest]; [congruence|].
  cbn [NoPaths]. now rewrite H.
Qed.

(** The theorem at [/safe/../etc], next to a path the same gate lets through. *)
Lemma CheckAccess_refuses_parent_reference_witness :
     CheckAccess restricted_fs (str "/safe/x") = true
  /\ Contains (AddTrailingSlash (str "/safe/../etc")) (str "..") = true
  /\ CheckAccess restricted_fs (str "/safe/../etc") = false.
Proof.
  split; [reflexivity|].
  apply (@CheckAccess_refuses_parent_reference restricted_fs (str "/safe/../etc")).
  - discriminate.
  - reflexivity.
Defined.

End AccessGate.

(* ================================================================== *)
(** ** Trailing slashes *)

Section TrailingSlash.

Lemma is_trim_char_replace (c : ascii) :
  is_trim_char (replace_backslash c) = is_trim_char c.
Proof.
  unfold replace_backslash. destruct (Ascii.eqb c "\") eqn:E; [|reflexivity].
  apply Ascii.eqb_eq in E. now subst c.
Qed.

Lemma trim_front_Replaced (s : Str) :
  trim_front (Replaced s "\" "/") = Replaced (trim_front s) "\" "/".
Proof.
  induction s as [|c s IH]; [reflexivity|].
  cbn [Replaced map trim_front]. fold (replace_backslash c).
  rewrite is_trim_char_replace. destruct (is_trim_char c); [exact IH | reflexivity].
Qed.

Lemma trim_front_idem (s : Str) : trim_front (trim_front s) = trim_front s.
Proof.
  induction s as [|c s IH]; [reflexivity|]. simpl.
  destruct (is_trim_char c) eqn:E; [exact IH|]. simpl. now rewrite E.
Qed.

Lemma trim_front_fixed_head (c : ascii) (s : Str) :
  trim_front (c :: s) = c :: s -> is_trim_char c = false.
Proof.
  simpl. destruct (is_trim_char c); [|reflexivity].
  intros H. pose proof (trim_front_length s) as L. rewrite H in L. simpl in L. lia.
Qed.

Lemma trim_front_trim_back (s : Str) :
  trim_front s = s -> trim_front (trim_back s) = trim_back s.
Proof.
  destruct s as [|c s]; [reflexivity|]. intros H.
  apply trim_front_fixed_head in H.
  change (c :: s) with ([] ++ c :: s). rewrite trim_back_keep by exact H.
  simpl. now rewrite H.
Qed.

Lemma trim_front_removelast (s : Str) :
  trim_front s = s -> trim_front (removelast s) = removelast s.
Proof.
  destruct s as [|c [|d s]]; [reflexivity..|]. intros H.
  apply trim_front_fixed_head in H.
  change (removelast (c :: d :: s)) with (c :: removelast (d :: s)).
  simpl. now rewrite H.
Qed.

Lemma Replaced_idem (s : Str) :
  Replaced (Replaced s "\" "/") "\" "/" = Replaced s "\" "/".
Proof.
  unfold Replaced. rewrite map_map. apply map_ext. intros c.
  destruct (Ascii.eqb c "\") eqn:E; [reflexivity | now rewrite E].
Qed.

Lemma Replaced_removelast (s : Str) (a b : ascii) :
  Replaced (removelast s) a b = removelast (Replaced s a b).
Proof.
  induction s as [|c s IH]; [reflexivity|].
  destruct s as [|d s]; [reflexivity|].
  change (removelast (c :: d :: s)) with (c :: removelast (d :: s)).
  change (Replaced (c :: removelast (d :: s)) a b)
    with ((if Ascii.eqb c a then b else c) :: Replaced (removelast (d :: s)) a b).
  rewrite IH. reflexivity.
Qed.

(** The result of [RemoveTrailingSlash] has no leading trim byte and no
    backslash. *)
Lemma RemoveTrailingSlash_clean (p : Str) :
  trim_front (RemoveTrailingSlash p) = RemoveTrailingSlash p /\
  Replaced (RemoveTrailingSlash p) "\" "/" = RemoveTrailingSlash p.
Proof.
  unfold RemoveTrailingSlash, DropBack.
  set (t := Replaced (Trimmed p) "\" "/").
  assert (Ht : trim_front t = t).
  { unfold t. rewrite trim_front_Replaced, Trimmed_unfold.
    now rewrite trim_front_trim_back by apply trim_front_idem. }
  assert (Hr : Replaced t "\" "/" = t) by apply Replaced_idem.
  destruct (negb (Empty t) && Ascii.eqb (Back t) "/").
  - split; [now apply trim_front_removelast|].
    now rewrite Replaced_removelast, Hr.
  - now split.
Qed.

Lemma RemoveTrailingSlash_length (p : Str) :
  (length (RemoveTrailingSlash p) <= length p)%nat.
Proof.
  unfold RemoveTrailingSlash, DropBack.
  set (t := Replaced (Trimmed p) "\" "/").
  assert (length t <= length p)%nat
    by (unfold t; rewrite Replaced_length; apply Trimmed_length).
  destruct (negb (Empty t) && Ascii.eqb (Back t) "/"); [|assumption].
  pose proof (DropBack_length t). unfold DropBack in *. lia.
Qed.

Lemma RemoveTrailingSlash_fixed (r : Str) :
  trim_front r = r -> Replaced r "\" "/" = r ->
  (RemoveTrailingSlash r = r <-> ends_in_slash_or_blank r = false).
Proof.
  intros Hlead Hback.
  destruct (snoc_cases r) as [-> | [r' [x ->]]]; [now split|].
  unfold ends_in_slash_or_blank. rewrite rev_unit.
  destruct (is_trim_char x) eqn:Ews.
  - rewrite orb_true_r. split; [|discriminate]. intros H.
    pose proof (RemoveTrailingSlash_length (r' ++ [x])) as _.
    assert (L : (length (RemoveTrailingSlash (r' ++ [x])) <= length r')%nat).
    { unfold RemoveTrailingSlash, DropBack.
      rewrite Trimmed_unfold, Hlead, trim_back_snoc, Ews.
      set (t := Replaced (trim_back r') "\" "/").
      assert (length t <= length r')%nat
        by (unfold t; rewrite Replaced_length; apply trim_back_length).
      destruct (negb (Empty t) && Ascii.eqb (Back t) "/"); [|assumption].
      pose proof (DropBack_length t). unfold DropBack in *. lia. }
    rewrite H, length_app in L. simpl in L. lia.
  - rewrite orb_false_r.
    assert (E : RemoveTrailingSlash (r' ++ [x])
                = if Ascii.eqb x "/" then r' else r' ++ [x]).
    { unfold RemoveTrailingSlash, DropBack.
      rewrite Trimmed_unfold, Hlead, trim_back_snoc, Ews, Hback.
      unfold Back. rewrite last_last.
      assert (Ene : Empty (r' ++ [x]) = false) by (destruct r'; reflexivity).
      rewrite Ene. cbn [negb andb].
      destruct (Ascii.eqb x "/"); [apply removelast_last | reflexivity]. }
    rewrite E. destruct (Ascii.eqb x "/"); split; try reflexivity; try discriminate.
    intros H. apply (f_equal (@length ascii)) in H. rewrite length_app in H.
    simpl in H. lia.
Qed.

(** **** C4 (as the code has it): stripping is idempotent exactly on the
    paths whose stripped form does not again end in a slash, a space or a
    tab: [RemoveTrailingSlash] removes one final slash after trimming, so a
    second application removes another slash, or trims blanks that the
    removed slash was protecting. *)
Theorem RemoveTrailingSlash_idempotent_iff (p : Str) :
  RemoveTrailingSlash (RemoveTrailingSlash p) = RemoveTrailingSlash p
  <-> ends_in_slash_or_blank (RemoveTrailingSlash p) = false.
Proof.
  destruct (RemoveTrailingSlash_clean p) as [Hlead Hback].
  now apply RemoveTrailingSlash_fixed.
Qed.

(** **** C4 (as stated) fails: two trailing slashes take two applications. *)
Lemma RemoveTrailingSlash_not_idempotent :
     RemoveTrailingSlash (str "a//") = str "a/"
  /\ RemoveTrailingSlash (RemoveTrailingSlash (str "a//")) = str "a"
  /\ RemoveTrailingSlash (RemoveTrailingSlash (str "a//")) <> RemoveTrailingSlash (str "a//").
Proof. repeat split. discriminate. Qed.

End TrailingSlash.

(* ================================================================== *)
(** ** Parent paths *)

Section ParentPath.

Lemma FindLast_from_spec (c : ascii) (s : Str) :
  forall i found : Z,
    FindLast_from i found s c = found \/
    ((i <= FindLast_from i found s c < i + Length s)%Z /\
     nth (Z.to_nat (FindLast_from i found s c - i)) s zero = c).
Proof.
  induction s as [|x t IH]; intros i found; [now left|].
  cbn [FindLast_from].
  destruct (IH (i + 1)%Z (if Ascii.eqb x c then i else found)) as [E | [Hr Hn]].
  - rewrite E. destruct (Ascii.eqb x c) eqn:Exc; [|now left].
    right. apply Ascii.eqb_eq in Exc. subst x.
    rewrite Z.sub_diag. unfold Length. cbn [length nth Z.to_nat]. split; [lia | reflexivity].
  - right. set (r := FindLast_from (i + 1) (if Ascii.eqb x c then i else found) t c) in *.
    unfold Length in *. cbn [length]. split; [lia|].
    replace (Z.to_nat (r - i)) with (S (Z.to_nat (r - (i + 1)))) by lia.
    exact Hn.
Qed.

Lemma FindLast_spec (s : Str) (c : ascii) :
  FindLast s c = NPOS \/
  ((0 <= FindLast s c < Length s)%Z /\ nth (Z.to_nat (FindLast s c)) s zero = c).
Proof.
  unfold FindLast. destruct (FindLast_from_spec c s 0 NPOS) as [E | [Hr Hn]].
  - now left.
  - right. rewrite Z.sub_0_r in Hn. split; [lia | exact Hn].
Qed.

(** When the stripped path still ends in a slash, stripping removed a byte. *)
Lemma RemoveTrailingSlash_ends_in_slash (p r : Str) :
  RemoveTrailingSlash p = r ++ ["/"] ->
  (length (RemoveTrailingSlash p) < length p)%nat.
Proof.
  unfold RemoveTrailingSlash, DropBack.
  set (t := Replaced (Trimmed p) "\" "/").
  assert (Lt : (length t <= length p)%nat)
    by (unfold t; rewrite Replaced_length; apply Trimmed_length).
  destruct (negb (Empty t) && Ascii.eqb (Back t) "/") eqn:Ec.
  - intros _. destruct t as [|a t']; [discriminate|].
    rewrite removelast_firstn_len, length_firstn. simpl in *. lia.
  - intros E. rewrite E in Ec. unfold Back in Ec. rewrite last_last in Ec.
    destruct r; discriminate.
Qed.

(** The parent path is strictly shorter than the path. *)
Lemma GetParentPath_shorter (p : Str) :
  p <> [] -> (length (GetParentPath p) < length p)%nat.
Proof.
  intros Hp. assert (0 < length p)%nat by (destruct p; [congruence | simpl; lia]).
  unfold GetParentPath.
  destruct (FindLast_spec (RemoveTrailingSlash p) "/") as [E | [Hr Hn]].
  - rewrite E. simpl. lia.
  - set (pos := FindLast (RemoveTrailingSlash p) "/") in *.
    destruct (negb (pos =? NPOS)%Z); [|simpl; lia].
    unfold Substring2, Length in *.
    destruct (0 <? Z.of_nat (length p))%Z; [|simpl; lia].
    cbn [Z.to_nat skipn]. rewrite length_firstn.
    pose proof (RemoveTrailingSlash_length p) as L.
    destruct (snoc_cases (RemoveTrailingSlash p)) as [E | [r [x E]]].
    + rewrite E in Hr. simpl in Hr. lia.
    + destruct (Z.eq_dec (pos + 1) (Z.of_nat (length (RemoveTrailingSlash p)))) as [Elast | Nlast];
        [|lia].
      assert (x = "/").
      { rewrite E in Hn, Elast. rewrite length_app in Elast. simpl in Elast.
        replace (Z.to_nat pos) with (length r) in Hn by lia.
        now rewrite nth_middle in Hn. }
      subst x. pose proof (RemoveTrailingSlash_ends_in_slash E). lia.
Qed.

Lemma GetParentPath_nil : GetParentPath [] = [].
Proof. reflexivity. Qed.

End ParentPath.

Section ParentPathStripped.

Lemma trim_front_suffix (s : Str) : exists w, s = w ++ trim_front s.
Proof.
  induction s as [|c s [w IH]]; [now exists []|]. simpl.
  destruct (is_trim_char c).
  - exists (c :: w). simpl. now rewrite <- IH.
  - now exists [].
Qed.

Lemma trim_back_prefix (s : Str) : exists w, s = trim_back s ++ w.
Proof.
  destruct (trim_front_suffix (rev s)) as [w Hw].
  exists (rev w). unfold trim_back.
  rewrite <- rev_app_distr, <- Hw. now rewrite rev_involutive.
Qed.

Lemma RemoveTrailingSlash_le_Trimmed (p : Str) :
  (length (RemoveTrailingSlash p) <= length (Trimmed p))%nat.
Proof.
  unfold RemoveTrailingSlash.
  set (t := Replaced (Trimmed p) "\" "/").
  assert (length t = length (Trimmed p)) by apply Replaced_length.
  destruct (negb (Empty t) && Ascii.eqb (Back t) "/"); [|lia].
  pose proof (DropBack_length t). lia.
Qed.

(** Without leading trim bytes, the stripped path is a prefix of the
    slash-normalised path. *)
Lemma RemoveTrailingSlash_prefix (p : Str) :
  trim_front p = p -> exists w, Replaced p "\" "/" = RemoveTrailingSlash p ++ w.
Proof.
  intros Hlead. unfold RemoveTrailingSlash, DropBack.
  rewrite Trimmed_unfold, Hlead.
  destruct (trim_back_prefix p) as [w Hw].
  set (t := Replaced (trim_back p) "\" "/").
  assert (Hp : Replaced p "\" "/" = t ++ Replaced w "\" "/").
  { unfold t. rewrite <- Replaced_app, <- Hw. reflexivity. }
  destruct (negb (Empty t) && Ascii.eqb (Back t) "/") eqn:Ec.
  - destruct t as [|a t'] eqn:Et; [discriminate|]. rewrite <- Et in *.
    exists (last t zero :: Replaced w "\" "/").
    rewrite Hp. rewrite (@app_removelast_last _ t zero) at 1 by (rewrite Et; discriminate).
    now rewrite <- app_assoc.
  - now exists (Replaced w "\" "/").
Qed.

Lemma Replaced_firstn (n : nat) (s : Str) (a b : ascii) :
  Replaced (firstn n s) a b = firstn n (Replaced s a b).
Proof. unfold Replaced. now rewrite firstn_map. Qed.

(** The stripped parent path is strictly shorter than the stripped path:
    the directory names handed to the backend along one chain of
    [CreateDir] calls all differ. *)
Lemma RemoveTrailingSlash_parent_shorter (p : Str) :
  GetParentPath p <> [] ->
  (length (RemoveTrailingSlash (GetParentPath p)) < length (RemoveTrailingSlash p))%nat.
Proof.
  unfold GetParentPath.
  destruct (FindLast_spec (RemoveTrailingSlash p) "/") as [E | [Hr Hn]];
    [rewrite E; simpl; congruence|].
  set (s := RemoveTrailingSlash p) in *. set (pos := FindLast s "/") in *.
  destruct (negb (pos =? NPOS)%Z); [|congruence].
  pose proof (RemoveTrailingSlash_length p) as Lsp. fold s in Lsp.
  unfold Substring2, Length in *.
  destruct (0 <? Z.of_nat (length p))%Z eqn:Epos; [|congruence].
  cbn [Z.to_nat skipn]. set (parent := firstn (Z.to_nat (pos + 1)) p). intros Hne.
  assert (Lpar : length parent = Z.to_nat (pos + 1))
    by (unfold parent; rewrite length_firstn; lia).
  pose proof (RemoveTrailingSlash_length parent) as Lrp.
  destruct (Z.eq_dec (pos + 1) (Z.of_nat (length s))) as [Elast | Nlast]; [|lia].
  (* the stripped path ends in the slash that was found *)
  destruct p as [|c p']; [simpl in Epos; discriminate|].
  destruct (is_trim_char c) eqn:Ec.
  - (* a leading trim byte of the path is trimmed from the parent as well *)
    pose proof (RemoveTrailingSlash_le_Trimmed parent) as L1.
    assert (L2 : (length (Trimmed parent) < length parent)%nat).
    { unfold parent. replace (Z.to_nat (pos + 1)) with (S (Z.to_nat pos)) by lia.
      cbn [firstn]. rewrite Trimmed_unfold. cbn [trim_front]. rewrite Ec.
      pose proof (trim_back_length (trim_front (firstn (Z.to_nat pos) p'))).
      pose proof (trim_front_length (firstn (Z.to_nat pos) p')).
      simpl. lia. }
    lia.
  - assert (Hlead : trim_front (c :: p') = c :: p') by (simpl; now rewrite Ec).
    destruct (RemoveTrailingSlash_prefix Hlead) as [w Hw]. fold s in Hw.
    assert (Hrp : Replaced parent "\" "/" = s).
    { unfold parent. rewrite Replaced_firstn, Hw.
      replace (Z.to_nat (pos + 1)) with (length s + 0)%nat by lia.
      rewrite firstn_app_2. simpl. apply app_nil_r. }
    destruct (snoc_cases s) as [Es | [r [x Es]]]; [rewrite Es in Hr; simpl in Hr; lia|].
    assert (x = "/").
    { rewrite Es in Hn, Elast. rewrite length_app in Elast. simpl in Elast.
      replace (Z.to_nat pos) with (length r) in Hn by lia.
      now rewrite nth_middle in Hn. }
    subst x.
    destruct (snoc_cases parent) as [Ep | [q [y Ep]]]; [congruence|].
    assert (Hy : is_trim_char y = false).
    { rewrite Ep, Replaced_app, Es in Hrp. apply app_inj_tail in Hrp as [_ Hy].
      fold (replace_backslash y) in Hy.
      rewrite <- is_trim_char_replace, Hy. reflexivity. }
    assert (Hparlead : trim_front parent = parent).
    { unfold parent. replace (Z.to_nat (pos + 1)) with (S (Z.to_nat pos)) by lia.
      cbn [firstn trim_front]. now rewrite Ec. }
    assert (Hres : RemoveTrailingSlash parent = r).
    { assert (Htb : trim_back parent = parent)
        by (rewrite Ep, trim_back_snoc, Hy; reflexivity).
      unfold RemoveTrailingSlash, DropBack.
      rewrite Trimmed_unfold, Hparlead, Htb, Hrp, Es.
      unfold Back. rewrite last_last.
      assert (Ene : Empty (r ++ ["/"]) = false) by (destruct r; reflexivity).
      rewrite Ene. cbn. apply removelast_last. }
    rewrite Hres, Es, length_app. simpl. lia.
Qed.

End ParentPathStripped.

(* ================================================================== *)
(** ** Directory creation *)

Section CreateDirFacts.
Context {cfg : Build} {B : Type} {P : Physfs B}.

Lemma GetNativePath_length (x : Str) : length (GetNativePath x) = length x.
Proof. unfold GetNativePath. destruct WIN32; [apply Replaced_length | reflexivity]. Qed.

Lemma CreateDir_mkdir_calls (pathName : Str) (w : World B) :
  calls (snd (CreateDir_mkdir pathName w))
  = calls w ++ [CallMkdir (GetNativePath (RemoveTrailingSlash pathName))].
Proof.
  unfold CreateDir_mkdir, bind, mutate.
  destruct (PHYSFS_mkdir (physfs w) (GetNativePath (RemoveTrailingSlash pathName))) as [r b'].
  destruct (negb (r =? 0)%Z); reflexivity.
Qed.

(** The guard of the recursive call implies that the path is not empty. *)
Lemma guard_nonempty (pathName : Str) :
  (1 <? Length (GetParentPath pathName))%Z = true ->
  pathName <> [] /\ GetParentPath pathName <> [].
Proof.
  intros G. apply Z.ltb_lt in G. split; intros E; rewrite E in G.
  - rewrite GetParentPath_nil in G. unfold Length in G. simpl in G. lia.
  - unfold Length in G. simpl in G. lia.
Qed.

Lemma CreateDir_enough_fuel (fs : FileSystem) :
  forall (n : nat) (pathName : Str) (w : World B),
    (length pathName < n)%nat -> exists r, CreateDir n fs pathName w = Some r.
Proof.
  induction n as [|n IH]; intros pathName w Hn; [lia|].
  cbn [CreateDir].
  destruct (negb (CheckAccess fs pathName)); [eexists; reflexivity|].
  destruct ((1 <? Length (GetParentPath pathName))%Z) eqn:G; cbn [andb].
  - destruct (negb (DirExists fs (physfs w) (GetParentPath pathName))).
    + destruct (guard_nonempty G) as [Hp _].
      pose proof (GetParentPath_shorter Hp) as Hs.
      destruct (IH (GetParentPath pathName) w ltac:(lia)) as [[ok w1] ->].
      destruct ok; eexists; reflexivity.
    + eexists; reflexivity.
  - eexists; reflexivity.
Qed.

Lemma CreateDir_more_fuel (fs : FileSystem) :
  forall (n : nat) (pathName : Str) (w : World B) (r : bool * World B),
    CreateDir n fs pathName w = Some r ->
    forall m, (n <= m)%nat -> CreateDir m fs pathName w = Some r.
Proof.
  induction n as [|n IH]; intros pathName w r Hr m Hm; [discriminate|].
  destruct m as [|m]; [lia|].
  cbn [CreateDir] in *.
  destruct (negb (CheckAccess fs pathName)); [exact Hr|].
  destruct ((1 <? Length (GetParentPath pathName))%Z &&
            negb (DirExists fs (physfs w) (GetParentPath pathName))); [|exact Hr].
  destruct (CreateDir n fs (GetParentPath pathName) w) as [r1|] eqn:E; [|discriminate].
  rewrite (IH _ _ _ E m) by lia. exact Hr.
Qed.

(** The backend calls of one [CreateDir]: creations of strictly shorter
    names, then at most one creation of the path itself, which is there
    whenever the result is [true]. *)
Lemma CreateDir_calls (fs : FileSystem) :
  forall (n : nat) (pathName : Str) (w w' : World B) (ok : bool),
    CreateDir n fs pathName w = Some (ok, w') ->
    let self := CallMkdir (GetNativePath (RemoveTrailingSlash pathName)) in
    exists t0,
      Forall (mkdir_below (length (RemoveTrailingSlash pathName))) t0 /\
      NoDup t0 /\
      (calls w' = calls w ++ t0 \/ calls w' = calls w ++ t0 ++ [self]) /\
      (ok = true -> calls w' = calls w ++ t0 ++ [self]).
Proof.
  induction n as [|n IH]; intros pathName w w' ok Hrun self; [discriminate|].
  cbn [CreateDir] in Hrun.
  destruct (negb (CheckAccess fs pathName)).
  { injection Hrun as <- <-. exists []. cbn.
    rewrite app_nil_r. repeat split; [constructor | constructor | now left | discriminate]. }
  assert (Hlast : forall w1, Some (CreateDir_mkdir pathName w1) = Some (ok, w') ->
                             calls w' = calls w1 ++ [self]).
  { intros w1 E. injection E as E. pose proof (CreateDir_mkdir_calls pathName w1) as C.
    rewrite E in C. exact C. }
  destruct ((1 <? Length (GetParentPath pathName))%Z) eqn:G; cbn [andb] in Hrun.
  2:{ exists []. cbn. repeat split; [constructor | constructor | right | intros _];
        now apply Hlast. }
  destruct (negb (DirExists fs (physfs w) (GetParentPath pathName))).
  2:{ exists []. cbn. repeat split; [constructor | constructor | right | intros _];
        now apply Hlast. }
  destruct (CreateDir n fs (GetParentPath pathName) w) as [[ok1 w1]|] eqn:E; [|discriminate].
  destruct (IH _ _ _ _ E) as (t0 & Hbelow & Hnodup & Hcalls & _).
  destruct (guard_nonempty G) as [_ Hpar].
  pose proof (RemoveTrailingSlash_parent_shorter Hpar) as Hshort.
  set (selfp := CallMkdir (GetNativePath (RemoveTrailingSlash (GetParentPath pathName)))) in *.
  assert (Hbelow' : Forall (mkdir_below (length (RemoveTrailingSlash pathName))) t0).
  { eapply Forall_impl; [|exact Hbelow]. intros c (d & -> & Hd). exists d. split; [reflexivity | lia]. }
  assert (Hselfp : mkdir_below (length (RemoveTrailingSlash pathName)) selfp).
  { eexists. split; [reflexivity|]. now rewrite GetNativePath_length. }
  assert (Hfresh : ~ In selfp t0).
  { intros Hin. rewrite Forall_forall in Hbelow. destruct (Hbelow _ Hin) as (d & Ed & Hd).
    injection Ed as <-. rewrite GetNativePath_length in Hd. lia. }
  assert (Hpar_calls : exists t1, Forall (mkdir_below (length (RemoveTrailingSlash pathName))) t1
                                  /\ NoDup t1 /\ calls w1 = calls w ++ t1).
  { destruct Hcalls as [Hc | Hc].
    - now exists t0.
    - exists (t0 ++ [selfp]). repeat split.
      + apply Forall_app. split; [exact Hbelow' | now constructor].
      + apply NoDup_app; [exact Hnodup | repeat constructor; intros [] | ].
        intros c Hin [<- | []]. now apply Hfresh.
      + exact Hc. }
  destruct Hpar_calls as (t1 & Hb1 & Hn1 & Hc1).
  exists t1. destruct ok1.
  - pose proof (Hlast _ Hrun) as Hl. rewrite Hc1, <- app_assoc in Hl.
    repeat split; [exact Hb1 | exact Hn1 | now right | now intros _].
  - injection Hrun as <- <-.
    repeat split; [exact Hb1 | exact Hn1 | now left | discriminate].
Qed.

End CreateDirFacts.

Section CreateDirTermination.
Context {cfg : Build} {B : Type} {P : Physfs B}.

(** **** C5: [CreateDir] terminates on every path.  The recursive call is
    made only when the parent path has more than one byte, and the parent
    path is then strictly shorter than the path, so a recursion depth of
    [length pathName + 1] is always enough and every larger bound gives the
    same result; when the parent path has at most one byte (the root [/],
    or no parent at all) the call does not recurse.  The backend calls made
    on the way are directory creations, no directory is asked for twice, and
    when the call succeeds the last of them is the creation of the path
    itself. *)
Theorem CreateDir_terminates (fs : FileSystem) (pathName : Str) (w : World B) :
  ((1 < Length (GetParentPath pathName))%Z ->
   (length (GetParentPath pathName) < length pathName)%nat)
  /\ exists (ok : bool) (w' : World B),
       (forall fuel, (length pathName < fuel)%nat ->
                     CreateDir fuel fs pathName w = Some (ok, w'))
       /\ ((Length (GetParentPath pathName) <= 1)%Z ->
           CreateDir 1 fs pathName w = Some (ok, w'))
       /\ exists t,
            calls w' = calls w ++ t
            /\ NoDup t
            /\ (forall c, In c t -> exists d, c = CallMkdir d)
            /\ (ok = true ->
                exists t0,
                  t = t0 ++ [CallMkdir (GetNativePath (RemoveTrailingSlash pathName))]).
Proof.
  split.
  { intros G. apply Z.ltb_lt in G. destruct (guard_nonempty G) as [Hp _].
    now apply GetParentPath_shorter. }
  destruct (@CreateDir_enough_fuel _ _ _ fs (S (length pathName)) pathName w ltac:(lia))
    as [[ok w'] Hrun].
  exists ok, w'. split; [|split].
  - intros fuel Hfuel. apply (CreateDir_more_fuel Hrun). lia.
  - intros Hroot.
    assert (E : exists r, CreateDir 1 fs pathName w = Some r).
    { cbn [CreateDir]. destruct (negb (CheckAccess fs pathName)); [eexists; reflexivity|].
      replace (1 <? Length (GetParentPath pathName))%Z with false
        by (symmetry; apply Z.ltb_ge; exact Hroot).
      eexists; reflexivity. }
    destruct E as [r E]. rewrite E.
    rewrite (CreateDir_more_fuel E (m := S (length pathName))) in Hrun by lia.
    exact Hrun.
  - destruct (CreateDir_calls Hrun) as (t0 & Hbelow & Hnodup & Hcalls & Hok).
    set (self := CallMkdir (GetNativePath (RemoveTrailingSlash pathName))) in *.
    assert (Hmk : forall c, In c t0 -> exists d, c = CallMkdir d).
    { intros c Hin. rewrite Forall_forall in Hbelow.
      destruct (Hbelow _ Hin) as (d & -> & _). now exists d. }
    destruct Hcalls as [Hc | Hc].
    + exists t0. repeat split; [exact Hc | exact Hnodup | exact Hmk |].
      intros Htrue. specialize (Hok Htrue). rewrite Hc in Hok.
      apply app_inv_head in Hok. exists t0. exact Hok.
    + exists (t0 ++ [self]). repeat split.
      * exact Hc.
      * apply NoDup_app; [exact Hnodup | repeat constructor; intros [] |].
        intros c Hin [<- | []]. rewrite Forall_forall in Hbelow.
        destruct (Hbelow _ Hin) as (d & Ed & Hd). injection Ed as <-.
        rewrite GetNativePath_length in Hd. lia.
      * intros c Hin. apply in_app_or in Hin as [Hin | [<- | []]];
          [now apply Hmk | now eexists].
      * intros _. now exists t0.
Qed.

End CreateDirTermination.

(** The theorem at [a/b/c] on an empty tree: two nested recursive calls,
    three directories created, the path itself last. *)
Lemma CreateDir_terminates_witness :
     (1 < Length (GetParentPath (str "a/b/c")))%Z
  /\ (length (GetParentPath (str "a/b/c")) < length (str "a/b/c"))%nat
  /\ (Length (GetParentPath (str "/a")) <= 1)%Z
  /\ exists w',
       CreateDir (cfg := posix_build) (P := MemFS.backend) 4 new_FileSystem
                 (str "a/b/c") empty_world = Some (true, w')
       /\ calls w' = [CallMkdir (str "a"); CallMkdir (str "a/b"); CallMkdir (str "a/b/c")].
Proof.
  destruct (CreateDir_terminates (cfg := posix_build) (P := MemFS.backend)
              new_FileSystem (str "a/b/c") empty_world) as [Hwf _].
  split; [reflexivity|].
  split; [apply Hwf; reflexivity|].
  split; [discriminate|].
  eexists. split; [cbv; reflexivity | reflexivity].
Defined.

(* ================================================================== *)
(** ** Deleting files *)

Section DeleteFacts.
Context {cfg : Build} {B : Type} {P : Physfs B}.

(** For a path that passes the access check, [Delete] issues one backend
    call and returns [true] exactly when that call reported failure. *)
Lemma Delete_returns_failure (fs : FileSystem) (fileName : Str) (w : World B) :
  CheckAccess fs (GetPath fileName) = true ->
  fst (Delete fs fileName w) = (fst (PHYSFS_delete (physfs w) fileName) =? 0)%Z
  /\ calls (snd (Delete fs fileName w)) = calls w ++ [CallDelete fileName]
  /\ physfs (snd (Delete fs fileName w)) = snd (PHYSFS_delete (physfs w) fileName).
Proof.
  intros Hacc. unfold Delete, bind, mutate. rewrite Hacc. cbn [negb].
  destruct (PHYSFS_delete (physfs w) fileName) as [r b']. cbn [fst snd].
  destruct (r =? 0)%Z; repeat split.
Qed.

End DeleteFacts.

(** **** C1 (the code at a failing input): the in-memory backend holds
    [save/old.dat] and no [save/none.dat].  Deleting the first succeeds in the
    backend (the file is gone afterwards) and [Delete] returns [false];
    deleting the second fails in the backend and [Delete] logs the backend's
    error and returns [true]. *)
Theorem Delete_inverts_backend_result :
     fst (MemFS.delete (physfs save_world) (str "save/old.dat")) = 1%Z
  /\ fst (Delete (P := MemFS.backend) new_FileSystem (str "save/old.dat") save_world) = false
  /\ FileExists (P := MemFS.backend) new_FileSystem
       (physfs (snd (Delete (P := MemFS.backend) new_FileSystem (str "save/old.dat") save_world)))
       (str "save/old.dat") = false
  /\ fst (MemFS.delete (physfs save_world) (str "save/none.dat")) = 0%Z
  /\ fst (Delete (P := MemFS.backend) new_FileSystem (str "save/none.dat") save_world) = true
  /\ log (snd (Delete (P := MemFS.backend) new_FileSystem (str "save/none.dat") save_world))
     = [(LOG_ERROR, str "Failed to delete file: 'save/none.dat' reason: not found")].
Proof. vm_compute. repeat split. Qed.

(* ================================================================== *)
(** ** Asynchronous request ids *)

Section AsyncFacts.
Context {cfg : Build} {B : Type} {P : Physfs B}.

(** What the base constructor leaves in the variable it was given: the next
    id, with [M_MAX_UNSIGNED - 1] followed by 1. *)
Lemma AsyncExecRequest_ctor_next (requestID : Z) :
  (1 <= requestID < M_MAX_UNSIGNED)%Z ->
  fst (AsyncExecRequest_ctor requestID) = requestID
  /\ snd (AsyncExecRequest_ctor requestID)
     = (if (requestID =? M_MAX_UNSIGNED - 1)%Z then 1 else requestID + 1)%Z
  /\ (1 <= snd (AsyncExecRequest_ctor requestID) < M_MAX_UNSIGNED)%Z.
Proof.
  intros Hr. unfold AsyncExecRequest_ctor, to_unsigned, M_MAX_UNSIGNED in *. cbn [fst snd].
  rewrite Z.mod_small by lia.
  destruct (Z.eqb_spec (requestID + 1) 4294967295); destruct (Z.eqb_spec requestID (4294967295 - 1));
    repeat split; lia.
Qed.

(** With threading and no allowed paths, [SystemCommandAsync] returns the
    current [nextAsyncExecID_] and leaves the member as it was. *)
Lemma SystemCommandAsync_keeps_next_id (fs : FileSystem) (commandLine : Str) (w : World B) :
  URHO3D_THREADING = true -> allowedPaths_ fs = [] ->
  fst (fst (SystemCommandAsync fs commandLine w)) = nextAsyncExecID_ fs
  /\ nextAsyncExecID_ (snd (fst (SystemCommandAsync fs commandLine w))) = nextAsyncExecID_ fs
  /\ allowedPaths_ (snd (fst (SystemCommandAsync fs commandLine w))) = [].
Proof.
  intros Ht Ha. unfold SystemCommandAsync. rewrite Ht, Ha. cbn. now rewrite Ha.
Qed.

Lemma SystemRunAsync_keeps_next_id (fs : FileSystem) (fileName : Str) (arguments : list Str)
    (w : World B) :
  URHO3D_THREADING = true -> allowedPaths_ fs = [] ->
  fst (fst (SystemRunAsync fs fileName arguments w)) = nextAsyncExecID_ fs
  /\ nextAsyncExecID_ (snd (fst (SystemRunAsync fs fileName arguments w))) = nextAsyncExecID_ fs
  /\ allowedPaths_ (snd (fst (SystemRunAsync fs fileName arguments w))) = [].
Proof.
  intros Ht Ha. unfold SystemRunAsync. rewrite Ht, Ha. cbn. now rewrite Ha.
Qed.

End AsyncFacts.

(** **** C2 (the code at a failing input): two requests in a row on a new
    facade, threading enabled and no allowed paths.  Both calls return the id
    1, and both queued requests carry it. *)
Theorem SystemCommandAsync_repeats_id :
  let call1 := SystemCommandAsync (cfg := posix_build)
                 new_FileSystem (str "true") empty_world in
  let call2 := SystemRunAsync (cfg := posix_build)
                 (snd (fst call1)) (str "ls") [str "-l"] (snd call1) in
     fst (fst call1) = 1%Z
  /\ fst (fst call2) = 1%Z
  /\ map requestID_ (asyncExecQueue_ (snd (fst call2))) = [1%Z; 1%Z]
  /\ nextAsyncExecID_ (snd (fst call2)) = 1%Z.
Proof. vm_compute. repeat split. Qed.

(* ================================================================== *)
(** ** Modification time *)

Section ModTimeFacts.
Context {cfg : Build} {B : Type} {P : Physfs B}.

Lemma to_unsigned_to_signed (bits x : Z) :
  bits = 32%Z \/ bits = 64%Z ->
  to_unsigned (to_signed bits x) = (x mod 2 ^ 32)%Z.
Proof.
  intros Hb. unfold to_unsigned, to_signed.
  assert (Hdiv : (2 ^ 32 | 2 ^ bits)%Z).
  { destruct Hb as [-> | ->]; [exists 1%Z | exists (2 ^ 32)%Z]; reflexivity. }
  assert (E : ((x mod 2 ^ bits) mod 2 ^ 32 = x mod 2 ^ 32)%Z)
    by (apply Z.mod_mod_divide; exact Hdiv).
  destruct (x mod 2 ^ bits <? 2 ^ (bits - 1))%Z; [exact E|].
  destruct Hdiv as [k Hk]. rewrite <- E, Hk.
  replace (x mod (k * 2 ^ 32) - k * 2 ^ 32)%Z
    with (x mod (k * 2 ^ 32) + (- k) * 2 ^ 32)%Z by ring.
  apply Z_mod_plus_full.
Qed.

(** **** C7 (as the code has it): [GetLastModifiedTime] is 0 for the
    empty name, for a name the access check denies and when the backend's
    stat fails; otherwise it is the record's [modtime] converted to the
    32-bit unsigned return type, that is [modtime mod 2^32], which is
    [modtime] itself when [0 <= modtime < 2^32]. *)
Theorem GetLastModifiedTime_cases (fs : FileSystem) (b : B) (fileName : Str) :
  (fileName = [] -> GetLastModifiedTime fs b fileName = 0%Z)
  /\ (CheckAccess fs fileName = false -> GetLastModifiedTime fs b fileName = 0%Z)
  /\ (PHYSFS_stat b fileName = None -> GetLastModifiedTime fs b fileName = 0%Z)
  /\ (forall stat,
        fileName <> [] -> CheckAccess fs fileName = true ->
        PHYSFS_stat b fileName = Some stat ->
        GetLastModifiedTime fs b fileName = (modtime stat mod 2 ^ 32)%Z
        /\ ((0 <= modtime stat < 2 ^ 32)%Z ->
            GetLastModifiedTime fs b fileName = modtime stat)).
Proof.
  unfold GetLastModifiedTime. split; [|split; [|split]].
  - intros ->. reflexivity.
  - intros ->. cbn [negb]. now rewrite orb_true_r.
  - intros ->. now destruct (Empty fileName || negb (CheckAccess fs fileName)).
  - intros stat Hne Hacc Hstat.
    destruct fileName as [|c rest]; [congruence|].
    rewrite Hacc, Hstat. cbn [Empty negb orb].
    assert (E : to_unsigned (to_signed (if WIN32 then 32 else 64) (modtime stat))
                = (modtime stat mod 2 ^ 32)%Z)
      by (apply to_unsigned_to_signed; destruct WIN32; auto).
    split; [exact E|].
    intros Hrange. rewrite E. apply Z.mod_small. exact Hrange.
Qed.

End ModTimeFacts.

(** The four cases of the theorem on the in-memory backend. *)
Lemma GetLastModifiedTime_cases_witness :
     GetLastModifiedTime (cfg := posix_build) (P := MemFS.backend) new_FileSystem
       (stamped_world 1700000000) (str "") = 0%Z
  /\ GetLastModifiedTime (cfg := posix_build) (P := MemFS.backend) restricted_fs
       (stamped_world 1700000000) (str "save/old.dat") = 0%Z
  /\ GetLastModifiedTime (cfg := posix_build) (P := MemFS.backend) new_FileSystem
       (stamped_world 1700000000) (str "save/none.dat") = 0%Z
  /\ GetLastModifiedTime (cfg := posix_build) (P := MemFS.backend) new_FileSystem
       (stamped_world 1700000000) (str "save/old.dat") = 1700000000%Z.
Proof.
  split; [|split; [|split]].
  - destruct (GetLastModifiedTime_cases (cfg := posix_build) (P := MemFS.backend)
                new_FileSystem (stamped_world 1700000000) (str "")) as (H & _).
    apply H. reflexivity.
  - destruct (GetLastModifiedTime_cases (cfg := posix_build) (P := MemFS.backend)
                restricted_fs (stamped_world 1700000000) (str "save/old.dat")) as (_ & H & _).
    apply H. reflexivity.
  - destruct (GetLastModifiedTime_cases (cfg := posix_build) (P := MemFS.backend)
                new_FileSystem (stamped_world 1700000000) (str "save/none.dat"))
      as (_ & _ & H & _).
    apply H. reflexivity.
  - destruct (GetLastModifiedTime_cases (cfg := posix_build) (P := MemFS.backend)
                new_FileSystem (stamped_world 1700000000) (str "save/old.dat"))
      as (_ & _ & _ & H).
    destruct (H (MemFS.make_stat PHYSFS_FILETYPE_REGULAR 1700000000)) as [_ Hsmall].
    + discriminate.
    + reflexivity.
    + reflexivity.
    + apply Hsmall. split; [discriminate | reflexivity].
Defined.

(** **** C7 (as stated) fails: the backend reports [modtime = -1] for an
    entry whose time stamp it does not know, and the facade returns
    4294967295; on a 32-bit-[long] build the same; a time stamp of [2^32]
    seconds comes back as 0. *)
Lemma GetLastModifiedTime_wraps :
     option_map modtime (PHYSFS_stat (Physfs := MemFS.backend) (stamped_world (-1))
                           (str "save/old.dat")) = Some (-1)%Z
  /\ GetLastModifiedTime (cfg := posix_build) (P := MemFS.backend) new_FileSystem
       (stamped_world (-1)) (str "save/old.dat") = 4294967295%Z
  /\ GetLastModifiedTime (cfg := posix_build) (P := MemFS.backend) new_FileSystem
       (stamped_world (-1)) (str "save/old.dat") <> (-1)%Z
  /\ GetLastModifiedTime (cfg := windows_build) (P := MemFS.backend) new_FileSystem
       (stamped_world (-1)) (str "save/old.dat") = 4294967295%Z
  /\ GetLastModifiedTime (cfg := posix_build) (P := MemFS.backend) new_FileSystem
       (stamped_world 4294967296) (str "save/old.dat") = 0%Z.
Proof. vm_compute. repeat split. discriminate. Qed.

(* ================================================================== *)
(** ** Program directory, mounts, SystemOpen *)

Section Discovery.
Context {cfg : Build} {B : Type} {P : Physfs B}.

(** **** C8: [GetCurrentDir] and [GetProgramDir] return the same string in
    every backend state, the backend's base directory. *)
Theorem GetCurrentDir_is_GetProgramDir (b : B) :
  GetCurrentDir b = GetProgramDir b /\ GetCurrentDir b = PHYSFS_getBaseDir b.
Proof. split; reflexivity. Qed.

Lemma MountArchive_call (fileName mountPoint : Str) (priority : bool) (w : World B) :
  let append := if priority then 1%Z else 0%Z in
  let pathName := mounted_path (physfs w) fileName in
  let w' := snd (MountArchive fileName mountPoint priority w) in
  calls w' = calls w ++ [CallMount pathName mountPoint append]
  /\ physfs w' = snd (PHYSFS_mount (physfs w) pathName mountPoint append)
  /\ fst (MountArchive fileName mountPoint priority w)
     = negb (fst (PHYSFS_mount (physfs w) pathName mountPoint append) =? 0)%Z.
Proof.
  unfold MountArchive, mounted_path, bind, mutate, query, ret, URHO3D_LOGINFO, URHO3D_LOG,
    LogErrorPHYSFS, URHO3D_LOGERROR.
  destruct (IsAbsolutePath fileName); cbn [negb physfs log calls fst snd];
    destruct priority;
    match goal with
    | |- context [PHYSFS_mount ?b ?p ?m ?a] => destruct (PHYSFS_mount b p m a) as [r b']
    end; cbn [fst snd]; destruct (r =? 0)%Z; repeat split.
Qed.

(** **** C10: [SystemOpen] returns [false] for every file name and mode; it
    writes one error line to the log and touches neither the backend nor
    anything else. *)
Theorem SystemOpen_returns_false (fileName mode : Str) (w : World B) :
  fst (SystemOpen fileName mode w) = false
  /\ log (snd (SystemOpen fileName mode w))
     = log w ++ [(LOG_ERROR, str "SYSTEM OPEN IS NOT IMPLEMENTED - THANK YOU")]
  /\ physfs (snd (SystemOpen fileName mode w)) = physfs w
  /\ calls (snd (SystemOpen fileName mode w)) = calls w.
Proof. repeat split. Qed.

End Discovery.

Section MountOrder.
Context {cfg : Build} {B : Type} {P : Physfs B}.

(** **** C9: [MountArchive] calls the backend mount once, with
    [appendToPath = 1] when [priority] is true and [0] when it is false,
    whatever the file name and the mount point.  On a backend that keeps the
    adapter contract (append: lowest priority, otherwise highest) a
    successful mount of an archive that is not yet mounted therefore puts it
    last in the search path for [priority = true] and first for
    [priority = false]. *)
Theorem MountArchive_priority_is_append
    (fileName mountPoint : Str) (priority : bool) (w : World B) :
  let real := mounted_path (physfs w) fileName in
  let result := MountArchive fileName mountPoint priority w in
  calls (snd result)
  = calls w ++ [CallMount real mountPoint (if priority then 1%Z else 0%Z)]
  /\ (mount_contract P ->
      fst result = true ->
      ~ In real (PHYSFS_getSearchPath (physfs w)) ->
      PHYSFS_getSearchPath (physfs (snd result))
      = if priority
        then PHYSFS_getSearchPath (physfs w) ++ [real]
        else real :: PHYSFS_getSearchPath (physfs w)).
Proof.
  intros real result.
  destruct (MountArchive_call fileName mountPoint priority w) as (Hcalls & Hstate & Hres).
  fold real in Hcalls, Hstate, Hres. fold result in Hcalls, Hstate, Hres.
  split; [exact Hcalls|].
  intros Hcontract Hok Hnew. rewrite Hstate, Hcontract.
  - now destruct priority.
  - rewrite Hok in Hres. intros E. rewrite E in Hres. discriminate.
  - exact Hnew.
Qed.

End MountOrder.

Lemma Str_eqb_eq (a b : Str) : Str_eqb a b = true <-> a = b.
Proof.
  revert b; induction a as [|x a IH]; intros [|y b]; simpl; try (split; congruence).
  rewrite andb_true_iff, Ascii.eqb_eq, IH. split; [intros [-> ->] | intros E; injection E]; auto.
Qed.

(** The in-memory backend keeps the adapter contract of mount. *)
Lemma MemFS_mount_contract : mount_contract MemFS.backend.
Proof.
  intros b real mountPoint appendToPath. cbn [PHYSFS_mount PHYSFS_getSearchPath MemFS.backend].
  unfold MemFS.mount.
  destruct (negb (existsb (Str_eqb real) (MemFS.readable b))); [cbn; congruence|].
  intros _ Hnew.
  assert (E : existsb (fun e => Str_eqb real (fst e)) (MemFS.search_path b) = false).
  { apply not_true_is_false. intros H. apply existsb_exists in H as (e & Hin & He).
    apply Str_eqb_eq in He. apply Hnew. rewrite He. now apply in_map. }
  rewrite E. destruct (appendToPath =? 0)%Z; cbn; [reflexivity|].
  now rewrite map_app.
Qed.

(** The theorem on the in-memory backend, with one archive mounted before. *)
Lemma MountArchive_priority_is_append_witness :
     PHYSFS_getSearchPath (Physfs := MemFS.backend) (physfs two_archives)
     = [str "/opt/game/A.zip"]
  /\ PHYSFS_getSearchPath (Physfs := MemFS.backend)
       (physfs (snd (MountArchive (cfg := posix_build) (P := MemFS.backend)
                       (str "/opt/game/B.zip/") (str "") true two_archives)))
     = [str "/opt/game/A.zip"; str "/opt/game/B.zip"]
  /\ PHYSFS_getSearchPath (Physfs := MemFS.backend)
       (physfs (snd (MountArchive (cfg := posix_build) (P := MemFS.backend)
                       (str "/opt/game/B.zip/") (str "") false two_archives)))
     = [str "/opt/game/B.zip"; str "/opt/game/A.zip"].
Proof.
  split; [reflexivity|]. split.
  - destruct (MountArchive_priority_is_append (cfg := posix_build) (P := MemFS.backend)
                (str "/opt/game/B.zip/") (str "") true two_archives) as [_ H].
    apply H.
    + exact MemFS_mount_contract.
    + reflexivity.
    + cbv. intros [E | []]. discriminate.
  - destruct (MountArchive_priority_is_append (cfg := posix_build) (P := MemFS.backend)
                (str "/opt/game/B.zip/") (str "") false two_archives) as [_ H].
    apply H.
    + exact MemFS_mount_contract.
    + reflexivity.
    + cbv. intros [E | []]. discriminate.
Defined.

(* ================================================================== *)
(** ** Hidden entries in a directory scan *)

Section ScanFacts.
Context {cfg : Build} {B : Type} {P : Physfs B}.

Lemma ScanEntry_skips_hidden
    (rec : list Str -> Str -> option (list Str)) (b : B) (result : list Str)
    (path deltaPath filterExtension : Str) (flags : Z) (recursive : bool) (fileName : Str) :
  has_flag flags SCAN_HIDDEN = false ->
  StartsWith fileName (str ".") = true ->
  ScanEntry rec b result path deltaPath filterExtension flags recursive fileName = Some result.
Proof. intros Hf Hdot. unfold ScanEntry. now rewrite Hf, Hdot. Qed.

Lemma ScanEntry_with_hidden
    (rec : list Str -> Str -> option (list Str)) (b : B) (result : list Str)
    (path deltaPath filterExtension : Str) (flags : Z) (recursive : bool) (fileName : Str) :
  has_flag flags SCAN_HIDDEN = true ->
  ScanEntry rec b result path deltaPath filterExtension flags recursive fileName
  = ScanVisibleEntry rec b result path deltaPath filterExtension flags recursive fileName.
Proof. intros Hf. unfold ScanEntry. rewrite Hf. now rewrite andb_false_r. Qed.

Lemma ScanVisibleEntry_ext
    (rec1 rec2 : list Str -> Str -> option (list Str)) (b : B) (result : list Str)
    (path deltaPath filterExtension : Str) (flags : Z) (recursive : bool) (fileName : Str) :
  (forall r p, rec1 r p = rec2 r p) ->
  ScanVisibleEntry (P := P) rec1 b result path deltaPath filterExtension flags recursive fileName
  = ScanVisibleEntry (P := without_hidden P) rec2 b result path deltaPath filterExtension
      flags recursive fileName.
Proof.
  intros Hrec. unfold ScanVisibleEntry. cbn [PHYSFS_stat without_hidden].
  destruct (PHYSFS_stat b (path ++ str "/" ++ fileName)) as [stat|]; [|reflexivity].
  destruct (filetype stat); try reflexivity.
  destruct recursive; [apply Hrec | reflexivity].
Qed.

Lemma ScanEntries_none
    (Q : Physfs B) (rec : list Str -> Str -> option (list Str)) (b : B)
    (path deltaPath filterExtension : Str) (flags : Z) (recursive : bool) (array : list Str) :
  fold_left
    (fun acc fileName =>
       match acc with
       | None => None
       | Some result =>
           ScanEntry (P := Q) rec b result path deltaPath filterExtension flags recursive
             fileName
       end) array None = None.
Proof. induction array as [|x array IH]; [reflexivity | exact IH]. Qed.

Lemma ScanEntries_without_hidden
    (rec1 rec2 : list Str -> Str -> option (list Str)) (b : B)
    (path deltaPath filterExtension : Str) (flags : Z) (recursive : bool) :
  has_flag flags SCAN_HIDDEN = false ->
  (forall r p, rec1 r p = rec2 r p) ->
  forall (array : list Str) (result : list Str),
    ScanEntries (P := P) rec1 b path deltaPath filterExtension flags recursive array result
    = ScanEntries (P := without_hidden P) rec2 b path deltaPath filterExtension flags recursive
        (filter (fun name => negb (StartsWith name (str "."))) array) result.
Proof.
  intros Hf Hrec. unfold ScanEntries.
  induction array as [|x array IH]; intros result; [reflexivity|].
  cbn [fold_left filter].
  destruct (StartsWith x (str ".")) eqn:Hdot; cbn [negb].
  - rewrite ScanEntry_skips_hidden by assumption. apply IH.
  - cbn [fold_left]. unfold ScanEntry at 2 4. rewrite Hdot. cbn [andb].
    rewrite (ScanVisibleEntry_ext _ _ _ _ _ _ _ _ Hrec).
    destruct (ScanVisibleEntry (P := without_hidden P) rec2 b result path deltaPath
                filterExtension flags recursive x) as [result'|].
    + apply IH.
    + now rewrite !ScanEntries_none.
Qed.

Lemma ScanDirInternal_without_hidden (b : B) (startPath filter : Str) (flags : Z)
    (recursive : bool) :
  has_flag flags SCAN_HIDDEN = false ->
  forall (fuel : nat) (result : list Str) (path : Str),
    ScanDirInternal (P := P) fuel b result path startPath filter flags recursive
    = ScanDirInternal (P := without_hidden P) fuel b result path startPath filter flags
        recursive.
Proof.
  intros Hf. induction fuel as [|fuel IH]; intros result path; [reflexivity|].
  cbn [ScanDirInternal]. cbv zeta.
  rewrite (@ScanEntries_without_hidden _
             (fun result path' =>
                ScanDirInternal (P := without_hidden P) fuel b result path' startPath filter
                  flags recursive)); [reflexivity | exact Hf | exact IH].
Qed.

Lemma extends_visibly_refl (b : B) (result : list Str) : extends_visibly b result result.
Proof. exists []. split; [now rewrite app_nil_r | constructor]. Qed.

Lemma extends_visibly_trans (b : B) (r1 r2 r3 : list Str) :
  extends_visibly b r1 r2 -> extends_visibly b r2 r3 -> extends_visibly b r1 r3.
Proof.
  intros (a1 & -> & H1) (a2 & -> & H2). exists (a1 ++ a2).
  split; [now rewrite app_assoc | now apply Forall_app].
Qed.

Lemma extends_visibly_push (b : B) (result : list Str) (deltaPath dir fileName : Str) :
  In fileName (PHYSFS_enumerateFiles b dir) ->
  StartsWith fileName (str ".") = false ->
  extends_visibly b result (result ++ [deltaPath ++ fileName]).
Proof.
  intros Hin Hdot. exists [deltaPath ++ fileName]. split; [reflexivity|].
  constructor; [|constructor]. now exists deltaPath, dir, fileName.
Qed.

Lemma ScanEntry_emits
    (rec : list Str -> Str -> option (list Str)) (b : B) (result result' : list Str)
    (path deltaPath filterExtension : Str) (flags : Z) (recursive : bool) (fileName : Str) :
  (forall r p r', rec r p = Some r' -> extends_visibly b r r') ->
  has_flag flags SCAN_HIDDEN = false ->
  In fileName (PHYSFS_enumerateFiles b path) ->
  ScanEntry rec b result path deltaPath filterExtension flags recursive fileName = Some result' ->
  extends_visibly b result result'.
Proof.
  intros Hrec Hf Hin. unfold ScanEntry. rewrite Hf. cbn [negb]. rewrite andb_true_r.
  destruct (StartsWith fileName (str ".")) eqn:Hdot.
  { intros E. injection E as <-. apply extends_visibly_refl. }
  pose proof (extends_visibly_push result deltaPath Hin Hdot) as Hpush.
  unfold ScanVisibleEntry.
  destruct (PHYSFS_stat b (path ++ str "/" ++ fileName)) as [stat|];
    [|intros E; injection E as <-; apply extends_visibly_refl].
  destruct (filetype stat);
    try (destruct (has_flag flags SCAN_FILES);
         [destruct (Empty filterExtension || EndsWith fileName filterExtension)|];
         intros E; injection E as <-; (exact Hpush || apply extends_visibly_refl)).
  assert (H0 : extends_visibly b result
                 (if has_flag flags SCAN_DIRS then result ++ [deltaPath ++ fileName]
                  else result))
    by (destruct (has_flag flags SCAN_DIRS); [exact Hpush | apply extends_visibly_refl]).
  destruct recursive.
  - intros E. apply Hrec in E. eapply extends_visibly_trans; eassumption.
  - intros E. injection E as <-. exact H0.
Qed.

Lemma ScanEntries_emits
    (rec : list Str -> Str -> option (list Str)) (b : B)
    (path deltaPath filterExtension : Str) (flags : Z) (recursive : bool) :
  (forall r p r', rec r p = Some r' -> extends_visibly b r r') ->
  has_flag flags SCAN_HIDDEN = false ->
  forall (array : list Str) (result result' : list Str),
    (forall x, In x array -> In x (PHYSFS_enumerateFiles b path)) ->
    ScanEntries rec b path deltaPath filterExtension flags recursive array result = Some result' ->
    extends_visibly b result result'.
Proof.
  intros Hrec Hf. unfold ScanEntries.
  induction array as [|x array IH]; intros result result' Hsub.
  - intros E. injection E as <-. apply extends_visibly_refl.
  - cbn [fold_left].
    destruct (ScanEntry rec b result path deltaPath filterExtension flags recursive x)
      as [r1|] eqn:E1.
    + intros E. eapply extends_visibly_trans.
      * eapply ScanEntry_emits; [exact Hrec | exact Hf | apply Hsub; now left | exact E1].
      * apply (IH r1 result'); [intros y Hy; apply Hsub; now right | exact E].
    + now rewrite ScanEntries_none.
Qed.

Lemma ScanDirInternal_emits (b : B) (startPath filter : Str) (flags : Z) (recursive : bool) :
  has_flag flags SCAN_HIDDEN = false ->
  forall (fuel : nat) (result : list Str) (path : Str) (result' : list Str),
    ScanDirInternal fuel b result path startPath filter flags recursive = Some result' ->
    extends_visibly b result result'.
Proof.
  intros Hf. induction fuel as [|fuel IH]; intros result path result'; [discriminate|].
  cbn [ScanDirInternal]. cbv zeta. intros E.
  eapply ScanEntries_emits; [|exact Hf| |exact E].
  - intros r p r' Hr. eapply IH; exact Hr.
  - intros x Hx; exact Hx.
Qed.

(** What the hidden test does, entry by entry.  In a scan whose flags
    lack [SCAN_HIDDEN], a listed name that begins with a dot is passed over:
    nothing is emitted for it and the recursive call is not made; every
    string the scan returns is a relative path followed by a listed name that
    does not begin with a dot, and the scan returns what it returns when the
    dot names are taken out of every listing.  With [SCAN_HIDDEN] set, a dot
    name is handled by the code that handles every other name.  (This is
    about the names the backend lists, not about the strings returned nor
    about the directories listed.) *)
Lemma ScanDir_hidden_entries
    (fuel : nat) (fs : FileSystem) (b : B) (pathName filter : Str) (flags : Z)
    (recursive : bool) :
  (has_flag flags SCAN_HIDDEN = false ->
     (forall rec result path deltaPath filterExtension fileName,
         StartsWith fileName (str ".") = true ->
         ScanEntry rec b result path deltaPath filterExtension flags recursive fileName
         = Some result)
     /\ (forall result,
           ScanDir fuel fs b pathName filter flags recursive = Some result ->
           Forall (names_visible_entry b) result)
     /\ ScanDir (P := P) fuel fs b pathName filter flags recursive
        = ScanDir (P := without_hidden P) fuel fs b pathName filter flags recursive)
  /\ (has_flag flags SCAN_HIDDEN = true ->
      forall rec result path deltaPath filterExtension fileName,
        ScanEntry rec b result path deltaPath filterExtension flags recursive fileName
        = ScanVisibleEntry rec b result path deltaPath filterExtension flags recursive
            fileName).
Proof.
  split.
  - intros Hf. split; [|split].
    + intros. now apply ScanEntry_skips_hidden.
    + unfold ScanDir. intros result.
      destruct (CheckAccess fs pathName).
      * intros E. apply (ScanDirInternal_emits Hf) in E. now destruct E as (added & -> & H).
      * intros E. injection E as <-. constructor.
    + unfold ScanDir. destruct (CheckAccess fs pathName); [|reflexivity].
      now apply ScanDirInternal_without_hidden.
  - intros Hf **. now apply ScanEntry_with_hidden.
Qed.

End ScanFacts.

(** The lemma on the scan scenario of the design document. *)
Lemma ScanDir_hidden_entries_witness :
     ScanEntry (P := MemFS.backend) (fun _ _ => None) scan_scenario [] (str "/") (str "")
       (str ".png") SCAN_FILES true (str ".hidden.png") = Some []
  /\ ScanDir (cfg := posix_build) (P := MemFS.backend) 5 new_FileSystem scan_scenario
       (str "/") (str "*.png") SCAN_FILES true
     = ScanDir (cfg := posix_build) (P := without_hidden MemFS.backend) 5 new_FileSystem
         scan_scenario (str "/") (str "*.png") SCAN_FILES true
  /\ ScanEntry (P := MemFS.backend) (fun _ _ => None) scan_scenario [] (str "/") (str "")
       (str ".png") (Z.lor SCAN_FILES SCAN_HIDDEN) true (str ".hidden.png")
     = Some [str ".hidden.png"].
Proof.
  destruct (ScanDir_hidden_entries (cfg := posix_build) (P := MemFS.backend) 5 new_FileSystem
              scan_scenario (str "/") (str "*.png") SCAN_FILES true) as [Hoff _].
  destruct (Hoff eq_refl) as (Hskip & _ & Hsame).
  destruct (ScanDir_hidden_entries (cfg := posix_build) (P := MemFS.backend) 5 new_FileSystem
              scan_scenario (str "/") (str "*.png") (Z.lor SCAN_FILES SCAN_HIDDEN) true)
    as [_ Hon].
  split; [apply Hskip; reflexivity|].
  split; [exact Hsame|].
  rewrite (Hon eq_refl). reflexivity.
Defined.

Section ScanPath.
Context {cfg : Build} {B : Type} {P : Physfs B}.

(** [ScanDirInternal] puts the path it is handed through [AddTrailingSlash],
    also when the path is one the loop built from a listed name: two paths
    with the same [AddTrailingSlash] form are scanned as one. *)
Lemma ScanDirInternal_normalises (fuel : nat) (b : B) (result : list Str)
    (p q startPath filter : Str) (flags : Z) (recursive : bool) :
  AddTrailingSlash p = AddTrailingSlash q ->
  ScanDirInternal fuel b result p startPath filter flags recursive
  = ScanDirInternal fuel b result q startPath filter flags recursive.
Proof.
  intros E. destruct fuel as [|fuel]; [reflexivity|].
  cbn [ScanDirInternal]. cbv zeta. now rewrite E.
Qed.

(** Under an empty path the loop hands the listed name itself to the
    recursive call, and a blank in front of it is trimmed away: the
    directory listed for the entry [" " ++ name] is the directory [name]. *)
Lemma ScanDirInternal_leading_blank (fuel : nat) (b : B) (result : list Str)
    (name startPath filter : Str) (flags : Z) (recursive : bool) :
  ScanDirInternal fuel b result ([] ++ " " :: name) startPath filter flags recursive
  = ScanDirInternal fuel b result name startPath filter flags recursive.
Proof. apply ScanDirInternal_normalises. reflexivity. Qed.

End ScanPath.

(** **** C6 (the code at a failing input): the root of the in-memory tree
    lists the directory [ .git] (a blank, then [.git]), which holds
    [notes.txt], and the hidden directory [.git], which holds [config].  A
    recursive scan for files from the empty path, without [SCAN_HIDDEN],
    returns [.git/config]: the entry [ .git] passes the hidden test, the
    recursive call trims the path and lists the hidden directory [.git], and
    a string that begins with a dot is emitted, while [notes.txt] is not
    reported.  The same scan from [/] returns [ .git/notes.txt] only.  With
    [SCAN_HIDDEN] the scan from the empty path reports [.git/config] twice. *)
Theorem ScanDir_descends_hidden_directory :
     MemFS.enumerate blank_dot_scenario (str "") = [str " .git"; str ".git"]
  /\ has_flag SCAN_FILES SCAN_HIDDEN = false
  /\ ScanDir (cfg := posix_build) (P := MemFS.backend) 5 new_FileSystem blank_dot_scenario
       (str "") (str "") SCAN_FILES true
     = Some [str ".git/config"]
  /\ StartsWith (str ".git/config") (str ".") = true
  /\ ScanDir (cfg := posix_build) (P := MemFS.backend) 5 new_FileSystem blank_dot_scenario
       (str "/") (str "") SCAN_FILES true
     = Some [str " .git/notes.txt"]
  /\ ScanDir (cfg := posix_build) (P := MemFS.backend) 5 new_FileSystem blank_dot_scenario
       (str "") (str "") (Z.lor SCAN_FILES SCAN_HIDDEN) true
     = Some [str ".git/config"; str ".git/config"].
Proof. vm_compute. repeat split. Qed.

(* ================================================================== *)
(** * Further properties of the same code *)

(* ================================================================== *)
(** ** Splitting a path *)

Section SplitFacts.

Lemma FindLast_from_absent (c : ascii) (s : Str) :
  ~ In c s -> forall i found, FindLast_from i found s c = found.
Proof.
  induction s as [|x t IH]; intros Hnot i found; [reflexivity|].
  cbn [FindLast_from].
  destruct (Ascii.eqb_spec x c) as [-> | _]; [exfalso; apply Hnot; now left|].
  apply IH. intros Hin. apply Hnot. now right.
Qed.

Lemma FindLast_from_last (c : ascii) (l r : Str) :
  ~ In c r -> forall i found, FindLast_from i found (l ++ c :: r) c = (i + Length l)%Z.
Proof.
  intros Hnot. induction l as [|x l IH]; intros i found.
  - cbn [app FindLast_from]. rewrite Ascii.eqb_refl, FindLast_from_absent by exact Hnot.
    unfold Length. simpl. lia.
  - cbn [app FindLast_from]. rewrite IH. unfold Length. cbn [length]. lia.
Qed.

Lemma last_occurrence (c : ascii) (s : Str) :
  In c s -> exists l r, s = l ++ c :: r /\ ~ In c r.
Proof.
  induction s as [|x t IH]; intros Hin; [contradiction|].
  destruct (in_dec ascii_dec c t) as [Ht | Ht].
  - destruct (IH Ht) as (l & r & -> & Hr). now exists (x :: l), r.
  - destruct Hin as [-> | Hin]; [|contradiction]. now exists [], t.
Qed.

(** [FindLast] either finds nothing and answers [NPOS], or answers the
    length of what stands before the last occurrence. *)
Lemma FindLast_cases (s : Str) (c : ascii) :
  (~ In c s /\ FindLast s c = NPOS)
  \/ (exists l r, s = l ++ c :: r /\ ~ In c r /\ FindLast s c = Length l).
Proof.
  destruct (in_dec ascii_dec c s) as [Hin | Hnot].
  - right. destruct (last_occurrence Hin) as (l & r & -> & Hr).
    exists l, r. repeat split; [exact Hr|].
    unfold FindLast. now rewrite FindLast_from_last.
  - left. split; [exact Hnot|]. unfold FindLast. now apply FindLast_from_absent.
Qed.

Lemma FindLast_nonneg (s : Str) (c : ascii) : (0 <= FindLast s c)%Z.
Proof.
  destruct (FindLast_cases s c) as [[_ ->] | (l & r & _ & _ & ->)];
    unfold NPOS, Length; lia.
Qed.

Lemma Substring_split (s : Str) (pos : Z) :
  (0 <= pos)%Z -> Substring2 s 0 pos ++ Substring s pos = s.
Proof.
  intros Hpos. unfold Substring2, Substring, Length.
  destruct s as [|a s]; [destruct (pos <? _)%Z; cbn; now rewrite ?skipn_nil|].
  replace (0 <? Z.of_nat (length (a :: s)))%Z with true
    by (symmetry; apply Z.ltb_lt; simpl; lia).
  cbn [Z.to_nat skipn].
  destruct (Z.ltb_spec pos (Z.of_nat (length (a :: s)))).
  - apply firstn_skipn.
  - rewrite firstn_all2 by lia. apply app_nil_r.
Qed.

(** The directory and the file name that [SplitPath] returns do not depend
    on [lowercaseExtension], and the extension only by [ToLower]. *)
Lemma SplitPath_lowercase (fullPath : Str) :
  SplitPath fullPath true
  = (let '(path, file, extension) := SplitPath fullPath false in
     (path, file, ToLower extension)).
Proof.
  unfold SplitPath.
  destruct (negb (FindLast (GetInternalPath fullPath) "." =? NPOS)%Z &&
            ((FindLast (GetInternalPath fullPath) "/" =? NPOS)%Z ||
             (FindLast (GetInternalPath fullPath) "/"
                <? FindLast (GetInternalPath fullPath) ".")%Z)).
  - destruct (negb (FindLast (Substring2 (GetInternalPath fullPath) 0
                                (FindLast (GetInternalPath fullPath) ".")) "/" =? NPOS)%Z);
      reflexivity.
  - destruct (negb (FindLast (GetInternalPath fullPath) "/" =? NPOS)%Z); reflexivity.
Qed.

Lemma dir_file_split (s : Str) :
  (if negb (FindLast s "/" =? NPOS)%Z then Substring2 s 0 (FindLast s "/" + 1) else [])
  ++ (if negb (FindLast s "/" =? NPOS)%Z then Substring s (FindLast s "/" + 1) else s)
  = s.
Proof.
  pose proof (@FindLast_nonneg s "/").
  destruct (negb (FindLast s "/" =? NPOS)%Z); [|reflexivity].
  apply Substring_split. lia.
Qed.

Lemma SplitPath_concat (fullPath : Str) :
  fst (fst (SplitPath fullPath false)) ++ snd (fst (SplitPath fullPath false))
    ++ snd (SplitPath fullPath false)
  = GetInternalPath fullPath.
Proof.
  unfold SplitPath.
  set (c := GetInternalPath fullPath).
  pose proof (@FindLast_nonneg c ".") as Hext.
  destruct (negb (FindLast c "." =? NPOS)%Z &&
            ((FindLast c "/" =? NPOS)%Z || (FindLast c "/" <? FindLast c ".")%Z)).
  - pose proof (dir_file_split (Substring2 c 0 (FindLast c "."))) as H.
    destruct (negb (FindLast (Substring2 c 0 (FindLast c ".")) "/" =? NPOS)%Z);
      cbn [fst snd] in *; rewrite app_assoc, H; now apply Substring_split.
  - pose proof (dir_file_split c) as H.
    destruct (negb (FindLast c "/" =? NPOS)%Z); cbn [fst snd] in *;
      rewrite app_nil_r; exact H.
Qed.

(** **** X1: the three parts [SplitPath] returns, put together again, are
    the path in internal form, for every path (extension case kept). *)
Theorem SplitPath_round_trip (fullPath : Str) :
  fst (fst (SplitPath fullPath false)) ++ snd (fst (SplitPath fullPath false))
    ++ snd (SplitPath fullPath false)
  = GetInternalPath fullPath.
Proof. intros; eapply SplitPath_concat; eassumption. Qed.

End SplitFacts.

Section SplitShape.

Lemma Substring_app (l x : Str) : Substring (l ++ x) (Length l) = x.
Proof.
  unfold Substring, Length. rewrite Nat2Z.id, length_app.
  destruct (Z.ltb_spec (Z.of_nat (length l)) (Z.of_nat (length l + length x))).
  - now rewrite skipn_app, skipn_all, Nat.sub_diag.
  - destruct x; [reflexivity | simpl in *; lia].
Qed.

Lemma Substring2_app (l x : Str) : Substring2 (l ++ x) 0 (Length l) = l.
Proof.
  unfold Substring2, Length. rewrite Nat2Z.id. cbn [Z.to_nat skipn].
  destruct (0 <? Z.of_nat (length (l ++ x)))%Z eqn:E.
  - now rewrite firstn_app, firstn_all, Nat.sub_diag, firstn_O, app_nil_r.
  - apply Z.ltb_ge in E. destruct l; [reflexivity | simpl in E; lia].
Qed.

Lemma Length_app (l x : Str) : Length (l ++ x) = (Length l + Length x)%Z.
Proof. unfold Length. rewrite length_app. lia. Qed.

Lemma Replaced_no_backslash (s : Str) : ~ In "\" (Replaced s "\" "/").
Proof.
  unfold Replaced. rewrite in_map_iff. intros (c & Hc & _).
  destruct (Ascii.eqb_spec c "\"); [discriminate | congruence].
Qed.

(** What lies after a later occurrence lies after an earlier one as well. *)
Lemma later_suffix (l l2 r r2 : Str) (a b : ascii) :
  l ++ a :: r = l2 ++ b :: r2 -> (length l2 < length l)%nat ->
  exists m, r2 = m ++ a :: r.
Proof.
  revert l2. induction l as [|x l IH]; intros l2 E Hlen; [simpl in Hlen; lia|].
  destruct l2 as [|y l2].
  - injection E as _ E. now exists l.
  - injection E as _ E. apply (IH l2 E). simpl in Hlen. lia.
Qed.

(** The directory and file name of a string without a dot-extension. *)
Lemma dir_file_shape (s : Str) :
  (Length s < NPOS)%Z ->
  ((if negb (FindLast s "/" =? NPOS)%Z then Substring2 s 0 (FindLast s "/" + 1) else []) = []
   \/ exists d, (if negb (FindLast s "/" =? NPOS)%Z
                 then Substring2 s 0 (FindLast s "/" + 1) else []) = d ++ ["/"])
  /\ ~ In "/" (if negb (FindLast s "/" =? NPOS)%Z then Substring s (FindLast s "/" + 1) else s).
Proof.
  intros Hlen.
  destruct (FindLast_cases s "/") as [[Hnot ->] | (l & r & -> & Hr & ->)].
  - cbn. split; [now left | exact Hnot].
  - rewrite Length_app in Hlen. unfold Length in Hlen. cbn [length] in Hlen.
    replace (Length l =? NPOS)%Z with false
      by (symmetry; apply Z.eqb_neq; unfold Length; lia).
    cbn [negb].
    replace (l ++ "/" :: r) with ((l ++ ["/"]) ++ r) by now rewrite <- app_assoc.
    replace (Length l + 1)%Z with (Length (l ++ ["/"]))
      by (rewrite Length_app; reflexivity).
    rewrite Substring2_app, Substring_app.
    split; [right; now exists l | exact Hr].
Qed.

(** The first step of [SplitPath]: the extension is cut off, when the last
    dot stands after the last slash. *)
Lemma extension_shape (c : Str) :
  (Length c < NPOS)%Z ->
  exists extension rest,
    (if negb (FindLast c "." =? NPOS)%Z &&
        ((FindLast c "/" =? NPOS)%Z || (FindLast c "/" <? FindLast c ".")%Z)
     then (Substring c (FindLast c "."), Substring2 c 0 (FindLast c "."))
     else ([], c)) = (extension, rest)
    /\ (Length rest < NPOS)%Z
    /\ (extension = [] \/
        exists e, extension = "." :: e /\ ~ In "." e /\ ~ In "/" e).
Proof.
  intros Hc.
  destruct (FindLast_cases c ".") as [[Hnodot Edot] | (l & r & Ec & Hr & Edot)].
  { rewrite Edot. cbn. exists [], c. repeat split; [exact Hc | now left]. }
  assert (Hl : (Length l < NPOS)%Z)
    by (rewrite Ec, Length_app in Hc; unfold Length in *; cbn [length] in Hc; lia).
  rewrite Edot.
  replace (Length l =? NPOS)%Z with false by (symmetry; apply Z.eqb_neq; lia).
  cbn [negb andb].
  destruct ((FindLast c "/" =? NPOS)%Z || (FindLast c "/" <? Length l)%Z) eqn:Econd.
  2:{ exists [], c. repeat split; [exact Hc | now left]. }
  exists ("." :: r), l. rewrite Ec at 1 2. rewrite Substring_app, Substring2_app.
  repeat split; [exact Hl|]. right. exists r. repeat split; [exact Hr|].
  destruct (FindLast_cases c "/") as [[Hno _] | (l2 & r2 & Ec2 & Hr2 & Eslash)].
  - intros Hin. apply Hno. rewrite Ec. apply in_or_app. right. now right.
  - rewrite Eslash in Econd.
    assert (Hl2 : (Length l2 < NPOS)%Z)
      by (rewrite Ec2, Length_app in Hc; unfold Length in *; cbn [length] in Hc; lia).
    replace (Length l2 =? NPOS)%Z with false in Econd
      by (symmetry; apply Z.eqb_neq; lia).
    cbn [orb] in Econd. apply Z.ltb_lt in Econd.
    rewrite Ec in Ec2. destruct (later_suffix Ec2) as [m ->];
      [unfold Length in Econd; lia|].
    intros Hin. apply Hr2. apply in_or_app. right. now right.
Qed.

Lemma SplitPath_shape (fullPath path file extension : Str) :
  (Length fullPath < NPOS)%Z ->
  SplitPath fullPath false = (path, file, extension) ->
  (path = [] \/ exists d, path = d ++ ["/"])
  /\ ~ In "/" file
  /\ (extension = [] \/
      exists e, extension = "." :: e /\ ~ In "." e /\ ~ In "/" e)
  /\ ~ In "\" (path ++ file ++ extension).
Proof.
  intros Hlen Hsplit.
  assert (Hback : ~ In "\" (path ++ file ++ extension)).
  { pose proof (SplitPath_concat fullPath) as H. rewrite Hsplit in H.
    cbn [fst snd] in H. rewrite H. apply Replaced_no_backslash. }
  revert Hsplit. unfold SplitPath. cbv zeta.
  set (c := GetInternalPath fullPath).
  assert (Hc : (Length c < NPOS)%Z)
    by (unfold c, GetInternalPath, Length; rewrite Replaced_length; exact Hlen).
  destruct (extension_shape Hc) as (ext & rest & -> & Hrest & Hext).
  destruct (dir_file_shape Hrest) as [Hd Hf].
  destruct (negb (FindLast rest "/" =? NPOS)%Z); intros E; injection E as <- <- <-;
    repeat split; assumption.
Qed.

(** **** X2: the parts of a split path.  The directory part is empty or ends
    in a slash, the file name holds no slash, the extension is empty or a dot
    followed by bytes that are neither dots nor slashes, and no part holds a
    backslash.  (The length bound holds of every [String]: its length is an
    [unsigned].) *)
Theorem SplitPath_parts (fullPath path file extension : Str) :
  (Length fullPath < NPOS)%Z ->
  SplitPath fullPath false = (path, file, extension) ->
  (path = [] \/ exists d, path = d ++ ["/"])
  /\ ~ In "/" file
  /\ (extension = [] \/
      exists e, extension = "." :: e /\ ~ In "." e /\ ~ In "/" e)
  /\ ~ In "\" (path ++ file ++ extension).
Proof. intros; eapply SplitPath_shape; eassumption. Qed.

End SplitShape.

(** The theorem at [dir.d/archive.tar.gz]. *)
Lemma SplitPath_parts_witness :
     (str "dir.d/" = [] \/ exists d, str "dir.d/" = d ++ ["/"])
  /\ ~ In "/" (str "archive.tar")
  /\ (str ".gz" = [] \/ exists e, str ".gz" = "." :: e /\ ~ In "." e /\ ~ In "/" e)
  /\ ~ In "\" (str "dir.d/" ++ str "archive.tar" ++ str ".gz").
Proof.
  apply (@SplitPath_parts (str "dir.d\archive.tar.gz")).
  - reflexivity.
  - reflexivity.
Defined.

Section SplitInverse.


Lemma FindLast_absent (s : Str) (c : ascii) : ~ In c s -> FindLast s c = NPOS.
Proof. intros Hs. unfold FindLast. now apply FindLast_from_absent. Qed.

Lemma Replaced_id (s : Str) : ~ In "\" s -> Replaced s "\" "/" = s.
Proof.
  intros Hs. unfold Replaced. rewrite <- (map_id s) at 2. apply map_ext_in.
  intros c Hc. destruct (Ascii.eqb_spec c "\"); [subst; contradiction | reflexivity].
Qed.




End SplitInverse.


(* ================================================================== *)
(** ** The functions built on SplitPath *)

Section SplitClients.

Lemma SplitPath_true_parts (fullPath path file extension : Str) :
  SplitPath fullPath false = (path, file, extension) ->
  SplitPath fullPath true = (path, file, ToLower extension).
Proof. intros E. now rewrite SplitPath_lowercase, E. Qed.

(** **** X4: what the accessors return fits together.  The directory part
    followed by the file name with extension is the path in internal form,
    and replacing the extension of a path by its own extension gives the path
    in internal form as well. *)
Theorem path_accessors_fit (fullPath : Str) :
  GetPath fullPath ++ GetFileNameAndExtension fullPath false = GetInternalPath fullPath
  /\ GetPath fullPath ++ GetFileName fullPath ++ GetExtension fullPath false
     = GetInternalPath fullPath
  /\ ReplaceExtension fullPath (GetExtension fullPath false) = GetInternalPath fullPath.
Proof.
  pose proof (SplitPath_concat fullPath) as H.
  unfold GetPath, GetFileNameAndExtension, GetFileName, GetExtension, ReplaceExtension.
  destruct (SplitPath fullPath false) as [[path file] extension] eqn:E.
  rewrite (SplitPath_true_parts E). cbn [fst snd] in H. now rewrite H.
Qed.


End SplitClients.


(* ================================================================== *)
(** ** Normalised paths *)

Section Normalised.
Context {cfg : Build}.

Lemma trim_back_idem (s : Str) : trim_back (trim_back s) = trim_back s.
Proof. unfold trim_back. now rewrite rev_involutive, trim_front_idem. Qed.

Lemma trim_back_Replaced (s : Str) :
  trim_back (Replaced s "\" "/") = Replaced (trim_back s) "\" "/".
Proof.
  unfold trim_back, Replaced at 1 2. rewrite <- map_rev.
  fold (Replaced (rev s) "\" "/"). rewrite trim_front_Replaced.
  unfold Replaced. now rewrite map_rev.
Qed.

Lemma trim_front_app (t x : Str) :
  trim_front t = t -> t <> [] -> trim_front (t ++ x) = t ++ x.
Proof.
  destruct t as [|c t]; [congruence|]. intros H _.
  apply trim_front_fixed_head in H. simpl. now rewrite H.
Qed.

Lemma normal_form_Trimmed (p : Str) : normal_form (Replaced (Trimmed p) "\" "/").
Proof.
  unfold normal_form. rewrite trim_front_Replaced, trim_back_Replaced, Replaced_idem.
  rewrite !Trimmed_unfold, trim_back_idem.
  now rewrite trim_front_trim_back by apply trim_front_idem.
Qed.

Lemma normal_form_is_fixed (t : Str) :
  normal_form t -> Replaced (Trimmed t) "\" "/" = t.
Proof. intros (H1 & H2 & H3). now rewrite Trimmed_unfold, H1, H2, H3. Qed.

Lemma ends_in_slash_cases (t : Str) :
  negb (Empty t) && negb (Ascii.eqb (Back t) "/") = false ->
  t = [] \/ exists d, t = d ++ ["/"].
Proof.
  destruct (snoc_cases t) as [-> | (d & x & ->)]; [now left|].
  unfold Back. rewrite last_last.
  replace (Empty (d ++ [x])) with false by now destruct d.
  cbn [negb andb]. intros H. apply negb_false_iff, Ascii.eqb_eq in H. subst x.
  right. now exists d.
Qed.

(** The result of [AddTrailingSlash] is empty or ends in a slash, and it is
    in normal form. *)
Lemma AddTrailingSlash_shape (p : Str) :
  (AddTrailingSlash p = [] \/ exists d, AddTrailingSlash p = d ++ ["/"])
  /\ normal_form (AddTrailingSlash p).
Proof.
  unfold AddTrailingSlash.
  pose proof (normal_form_Trimmed p) as Hn.
  set (t := Replaced (Trimmed p) "\" "/") in *.
  destruct (negb (Empty t) && negb (Ascii.eqb (Back t) "/")) eqn:Ec.
  - split; [right; now exists t|].
    destruct Hn as (H1 & H2 & H3). unfold normal_form.
    assert (t <> []) by (intros ->; discriminate).
    rewrite trim_front_app, trim_back_snoc, Replaced_app, H3 by assumption.
    repeat split.
  - split; [now apply ends_in_slash_cases | exact Hn].
Qed.

Lemma AddTrailingSlash_facts (p : Str) :
  AddTrailingSlash (AddTrailingSlash p) = AddTrailingSlash p
  /\ (AddTrailingSlash p = [] \/ exists d, AddTrailingSlash p = d ++ ["/"])
  /\ ~ In "\" (AddTrailingSlash p)
  /\ Trimmed (AddTrailingSlash p) = AddTrailingSlash p
  /\ (AddTrailingSlash p = [] <-> Trimmed p = []).
Proof.
  destruct (AddTrailingSlash_shape p) as [Hshape Hn].
  pose proof (normal_form_is_fixed Hn) as Hfix.
  split; [|split; [exact Hshape | split; [|split]]].
  - unfold AddTrailingSlash at 1. rewrite Hfix.
    destruct Hshape as [-> | [d ->]]; [reflexivity|].
    unfold Back. rewrite last_last, Ascii.eqb_refl. cbn [negb]. now rewrite andb_false_r.
  - destruct Hn as (_ & _ & H3). rewrite <- H3. apply Replaced_no_backslash.
  - destruct Hn as (H1 & H2 & _). now rewrite Trimmed_unfold, H1, H2.
  - unfold AddTrailingSlash.
    destruct (Trimmed p) as [|c t] eqn:E; [now split|].
    split; [|discriminate].
    cbn [Replaced map Empty negb andb].
    destruct (negb _); [|discriminate].
    intros H. apply (f_equal (@length ascii)) in H. rewrite length_app in H.
    simpl in H. lia.
Qed.

(** **** X6: [AddTrailingSlash] is idempotent, and its result is empty or
    ends in a slash, has no backslash and no blank at either end.  It is empty
    exactly when the path is blank. *)
Theorem AddTrailingSlash_idempotent (p : Str) :
  AddTrailingSlash (AddTrailingSlash p) = AddTrailingSlash p
  /\ (AddTrailingSlash p = [] \/ exists d, AddTrailingSlash p = d ++ ["/"])
  /\ ~ In "\" (AddTrailingSlash p)
  /\ Trimmed (AddTrailingSlash p) = AddTrailingSlash p
  /\ (AddTrailingSlash p = [] <-> Trimmed p = []).
Proof. intros; eapply AddTrailingSlash_facts; eassumption. Qed.

Lemma RemoveTrailingSlash_after_add (p : Str) :
  RemoveTrailingSlash (AddTrailingSlash p) = RemoveTrailingSlash p.
Proof.
  destruct (AddTrailingSlash_shape p) as [_ Hn].
  unfold RemoveTrailingSlash at 1. rewrite (normal_form_is_fixed Hn).
  unfold AddTrailingSlash, RemoveTrailingSlash, DropBack.
  set (t := Replaced (Trimmed p) "\" "/").
  destruct (Empty t) eqn:Ee; cbn [negb andb].
  { rewrite Ee. reflexivity. }
  destruct (Ascii.eqb (Back t) "/") eqn:Eb; cbn [negb].
  - rewrite Ee, Eb. reflexivity.
  - replace (Empty (t ++ ["/"])) with false by now destruct t.
    unfold Back at 1. rewrite last_last. cbn. apply removelast_last.
Qed.

(** **** X7: stripping after adding is stripping:
    [RemoveTrailingSlash (AddTrailingSlash p) = RemoveTrailingSlash p]. *)
Theorem RemoveTrailingSlash_AddTrailingSlash (p : Str) :
  RemoveTrailingSlash (AddTrailingSlash p) = RemoveTrailingSlash p.
Proof. intros; eapply RemoveTrailingSlash_after_add; eassumption. Qed.

Lemma internal_native_forms (p : Str) :
  GetInternalPath (GetNativePath p) = GetInternalPath p
  /\ GetInternalPath (GetInternalPath p) = GetInternalPath p
  /\ length (GetInternalPath p) = length p
  /\ length (GetNativePath p) = length p.
Proof.
  split; [|split; [apply Replaced_idem | split]].
  - unfold GetInternalPath, GetNativePath. destruct WIN32; [|reflexivity].
    unfold Replaced. rewrite map_map. apply map_ext. intros c.
    destruct (Ascii.eqb_spec c "/") as [-> | Hs]; [reflexivity|].
    destruct (Ascii.eqb_spec c "\"); reflexivity.
  - apply Replaced_length.
  - unfold GetNativePath. destruct WIN32; [apply Replaced_length | reflexivity].
Qed.

(** **** X8: internal and native form.  Converting to internal form is
    idempotent and undoes nothing that the native form needs: the internal
    form of the native form is the internal form.  Both keep the length. *)
Theorem GetInternalPath_GetNativePath (p : Str) :
  GetInternalPath (GetNativePath p) = GetInternalPath p
  /\ GetInternalPath (GetInternalPath p) = GetInternalPath p
  /\ length (GetInternalPath p) = length p
  /\ length (GetNativePath p) = length p.
Proof. intros; eapply internal_native_forms; eassumption. Qed.

(** **** X9: whether a path is absolute does not depend on the form it is
    written in: [IsAbsolutePath] gives the same answer for a path, its
    internal form and its native form. *)
Theorem IsAbsolutePath_form (p : Str) :
  IsAbsolutePath (GetInternalPath p) = IsAbsolutePath p
  /\ IsAbsolutePath (GetNativePath p) = IsAbsolutePath p.
Proof.
  destruct (internal_native_forms p) as (Hn & Hi & _ & _).
  unfold IsAbsolutePath. rewrite Hn, Hi. split.
  - now destruct p.
  - unfold GetNativePath. destruct WIN32; destruct p; reflexivity.
Qed.

End Normalised.

(* ================================================================== *)
(** ** Parent path and temporary directory *)

Section ParentAndTemp.
Context {cfg : Build}.

Lemma firstn_succ_snoc (n : nat) (s : Str) :
  (n < length s)%nat -> firstn (S n) s = firstn n s ++ [nth n s zero].
Proof.
  revert s. induction n as [|n IH]; intros [|a s] H; simpl in H; try lia.
  - reflexivity.
  - change (firstn (S (S n)) (a :: s)) with (a :: firstn (S n) s).
    rewrite IH by lia. reflexivity.
Qed.

(** **** X10: the parent path is cut from the path as it was given: it is
    always a prefix of the path; and when the path does not begin with a
    blank, the parent path is empty or ends in a separator, [/] or [\]. *)
Theorem GetParentPath_prefix (path : Str) :
  (exists rest, path = GetParentPath path ++ rest)
  /\ (trim_front path = path ->
      GetParentPath path = [] \/
      exists d x, GetParentPath path = d ++ [x] /\ (x = "/" \/ x = "\")).
Proof.
  unfold GetParentPath.
  destruct (FindLast_spec (RemoveTrailingSlash path) "/") as [E | [Hr Hn]].
  { rewrite E. cbn. split; [now exists path | now left]. }
  set (pos := FindLast (RemoveTrailingSlash path) "/") in *.
  destruct (negb (pos =? NPOS)%Z); [|split; [now exists path | now left]].
  pose proof (RemoveTrailingSlash_length path) as L.
  unfold Substring2, Length in *.
  replace (0 <? Z.of_nat (length path))%Z with true by (symmetry; apply Z.ltb_lt; lia).
  cbn [Z.to_nat skipn]. split.
  - exists (skipn (Z.to_nat (pos + 1)) path). now rewrite firstn_skipn.
  - intros Hlead. right.
    replace (Z.to_nat (pos + 1)) with (S (Z.to_nat pos)) by lia.
    rewrite firstn_succ_snoc by lia.
    exists (firstn (Z.to_nat pos) path), (nth (Z.to_nat pos) path zero).
    split; [reflexivity|].
    destruct (RemoveTrailingSlash_prefix Hlead) as [w Hw].
    assert (H : nth (Z.to_nat pos) (Replaced path "\" "/") zero = "/").
    { rewrite Hw, app_nth1 by lia. exact Hn. }
    unfold Replaced in H.
    rewrite (nth_indep _ zero (replace_backslash zero)) in H by (rewrite length_map; lia).
    change (fun c : ascii => if Ascii.eqb c "\" then "/" else c)
      with replace_backslash in H.
    rewrite map_nth in H. unfold replace_backslash in H.
    destruct (Ascii.eqb_spec (nth (Z.to_nat pos) path zero) "\"); [now right | now left].
Qed.

(** **** X11: the temporary directory.  In every build but the Windows
    build with [MINI_URHO] the result is empty or ends in a slash and holds no
    backslash, whatever the host answers; in the Windows build with
    [MINI_URHO] it is the value of [TMP] as it stands, with no slash added
    and no backslash replaced.  Without [TMPDIR] and without [P_tmpdir] it is
    [/tmp/] on a system other than Windows. *)
Theorem GetTemporaryDir_shape (MINI_URHO : bool) (TMP : option Str) (tempPathW : Str)
    (TMPDIR P_tmpdir : option Str) :
  let dir := GetTemporaryDir MINI_URHO TMP tempPathW TMPDIR P_tmpdir in
  (WIN32 && MINI_URHO = false ->
   (dir = [] \/ exists d, dir = d ++ ["/"]) /\ ~ In "\" dir)
  /\ (WIN32 && MINI_URHO = true ->
      dir = match TMP with Some pathName => pathName | None => [] end)
  /\ (WIN32 = false -> GetTemporaryDir MINI_URHO TMP tempPathW None None = str "/tmp/").
Proof.
  intros dir. unfold dir, GetTemporaryDir. split; [|split].
  - destruct WIN32.
    + destruct MINI_URHO; [discriminate|]. intros _. split; apply AddTrailingSlash_facts.
    + intros _. destruct TMPDIR; [split; apply AddTrailingSlash_facts|].
      destruct P_tmpdir; [split; apply AddTrailingSlash_facts|].
      split; [right; now exists (str "/tmp") | cbv; intuition discriminate].
  - destruct WIN32; [|discriminate]. destruct MINI_URHO; [reflexivity | discriminate].
  - intros ->. reflexivity.
Qed.

End ParentAndTemp.

(** The theorem at [Data\Scenes\Main.xml]. *)
Lemma GetParentPath_prefix_witness :
     (exists rest, str "Data\Scenes\Main.xml" = GetParentPath (str "Data\Scenes\Main.xml") ++ rest)
  /\ (GetParentPath (str "Data\Scenes\Main.xml") = [] \/
      exists d x, GetParentPath (str "Data\Scenes\Main.xml") = d ++ [x]
                  /\ (x = "/" \/ x = "\")).
Proof.
  destruct (GetParentPath_prefix (str "Data\Scenes\Main.xml")) as [H1 H2].
  split; [exact H1 | apply H2; reflexivity].
Defined.

(** The theorem on the Windows build with [MINI_URHO]: the value of [TMP]
    comes back with its backslashes and without a final slash. *)
Lemma GetTemporaryDir_shape_witness :
  GetTemporaryDir (cfg := windows_build) true (Some (str "C:\Temp")) (str "C:\Temp\")
    None None = str "C:\Temp".
Proof.
  destruct (GetTemporaryDir_shape (cfg := windows_build) true (Some (str "C:\Temp"))
              (str "C:\Temp\") None None) as (_ & H & _).
  apply H. reflexivity.
Defined.

(* ================================================================== *)
(** ** More on the access gate *)

Section GateFacts.
Context {cfg : Build} {B : Type} {P : Physfs B}.

(** **** X12: two spellings of a directory with the same
    [AddTrailingSlash] form (trailing slash or not, blanks around it, either
    separator) are the same directory for the access check, for the existence
    test and for a scan. *)
Theorem same_directory (fs : FileSystem) (b : B) (p q : Str) :
  AddTrailingSlash p = AddTrailingSlash q ->
  CheckAccess fs p = CheckAccess fs q
  /\ DirExists fs b p = DirExists fs b q
  /\ forall fuel filter flags recursive,
       ScanDir fuel fs b p filter flags recursive
       = ScanDir fuel fs b q filter flags recursive.
Proof.
  intros E.
  assert (Hc : CheckAccess fs p = CheckAccess fs q) by (unfold CheckAccess; now rewrite E).
  assert (Hr : RemoveTrailingSlash p = RemoveTrailingSlash q).
  { rewrite <- (RemoveTrailingSlash_after_add p), E.
    apply RemoveTrailingSlash_after_add. }
  split; [exact Hc | split].
  - unfold DirExists. now rewrite Hc, Hr.
  - intros. unfold ScanDir. now rewrite Hc, E.
Qed.

Lemma Find_self_prefix (a r : Str) : a <> [] -> Find (a ++ r) a = 0%Z.
Proof.
  intros Ha. unfold Find.
  replace (Empty a) with false by now destruct a.
  replace (Length (a ++ r) <? Length a)%Z with false
    by (symmetry; apply Z.ltb_ge; rewrite Length_app; unfold Length; lia).
  cbn [orb].
  assert (H : prefixb a (a ++ r) = true) by (apply prefixb_spec; now exists r).
  destruct a as [|x a]; [congruence|]. cbn [app] in *. unfold Find_from. now rewrite H.
Qed.

Lemma RegisterPath_registers (fs : FileSystem) (pathName : Str) :
  pathName <> [] -> In (AddTrailingSlash pathName) (allowedPaths_ (RegisterPath fs pathName)).
Proof.
  intros Hne. unfold RegisterPath. destruct pathName as [|c rest]; [congruence|].
  cbn [Empty].
  destruct (existsb _ (allowedPaths_ fs)) eqn:E.
  - apply existsb_exists in E as (q & Hin & Hq). apply Str_eqb_eq in Hq. now subst q.
  - cbn [allowedPaths_]. apply in_or_app. right. now left.
Qed.

Lemma RegisterPath_keeps (fs : FileSystem) (pathName q : Str) :
  In q (allowedPaths_ fs) -> In q (allowedPaths_ (RegisterPath fs pathName)).
Proof.
  intros Hin. unfold RegisterPath. destruct (Empty pathName); [exact Hin|].
  destruct (existsb _ (allowedPaths_ fs)); [exact Hin|].
  cbn [allowedPaths_]. apply in_or_app. now left.
Qed.

Lemma CheckAccess_restricted (fs : FileSystem) (p : Str) :
  allowedPaths_ fs <> [] ->
  CheckAccess fs p
  = negb (Contains (AddTrailingSlash p) (str ".."))
    && existsb (fun i => (Find (AddTrailingSlash p) i =? 0)%Z) (allowedPaths_ fs).
Proof.
  intros Hne. unfold CheckAccess. destruct (allowedPaths_ fs); [congruence|].
  cbn [NoPaths]. now destruct (Contains _ _).
Qed.

(** **** X13: widening a whitelist revokes nothing.  Once some path is
    registered, a path that passes the access check still passes it after any
    further [RegisterPath]. *)
Theorem RegisterPath_never_revokes (fs : FileSystem) (pathName p : Str) :
  allowedPaths_ fs <> [] ->
  CheckAccess fs p = true ->
  CheckAccess (RegisterPath fs pathName) p = true.
Proof.
  intros Hne Hacc.
  assert (Hne' : allowedPaths_ (RegisterPath fs pathName) <> []).
  { destruct (allowedPaths_ fs) as [|a l] eqn:E; [congruence|].
    intros H. pose proof (@RegisterPath_keeps fs pathName a) as K.
    rewrite E, H in K. apply K. now left. }
  rewrite CheckAccess_restricted in * by assumption.
  apply andb_true_iff in Hacc as [Hdots Hex]. rewrite Hdots. cbn [andb].
  apply existsb_exists in Hex as (i & Hin & Hi).
  apply existsb_exists. exists i. split; [now apply RegisterPath_keeps | exact Hi].
Qed.

(** **** X14: registering a blank path locks everything.  On a facade
    without allowed paths, [RegisterPath] of a path that is not empty but
    consists of blanks only inserts the empty prefix, which no path matches:
    afterwards the access check refuses every path. *)
Theorem RegisterPath_blank_locks (fs : FileSystem) (pathName : Str) :
  allowedPaths_ fs = [] ->
  pathName <> [] ->
  Trimmed pathName = [] ->
  forall p, CheckAccess (RegisterPath fs pathName) p = false.
Proof.
  intros Hnone Hne Hblank p.
  assert (E : allowedPaths_ (RegisterPath fs pathName) = [[]]).
  { unfold RegisterPath. destruct pathName as [|c rest]; [congruence|].
    cbn [Empty]. rewrite Hnone. cbn [existsb allowedPaths_ app].
    destruct (AddTrailingSlash_facts (c :: rest)) as (_ & _ & _ & _ & Hempty).
    now rewrite (proj2 Hempty Hblank). }
  unfold CheckAccess. rewrite E. cbn [NoPaths existsb].
  destruct (Contains _ _); [reflexivity|].
  unfold Find. cbn [Empty orb]. reflexivity.
Qed.

End GateFacts.

(** The theorem at [Data/Scenes] and [ Data\Scenes\ ], on the scan
    scenario's backend. *)
Lemma same_directory_witness :
     CheckAccess restricted_fs (str "Data/Scenes") = CheckAccess restricted_fs (str " Data\Scenes\ ")
  /\ DirExists (cfg := posix_build) (P := MemFS.backend) new_FileSystem scan_scenario (str "sub")
     = DirExists (cfg := posix_build) (P := MemFS.backend) new_FileSystem scan_scenario
         (str " sub\ ").
Proof.
  split.
  - apply (same_directory (cfg := posix_build) (P := MemFS.backend) restricted_fs scan_scenario).
    reflexivity.
  - apply (same_directory (cfg := posix_build) (P := MemFS.backend) new_FileSystem
             scan_scenario (p := str "sub") (q := str " sub\ ")).
    reflexivity.
Defined.

(** The theorem on a facade restricted to [/safe/], widened by [/data]. *)
Lemma RegisterPath_never_revokes_witness :
  CheckAccess (RegisterPath restricted_fs (str "/data")) (str "/safe/x") = true.
Proof.
  apply RegisterPath_never_revokes; [discriminate | reflexivity].
Defined.

(** The theorem at a path of two blanks. *)
Lemma RegisterPath_blank_locks_witness :
  CheckAccess (RegisterPath new_FileSystem (str "  ")) (str "Data/x.png") = false.
Proof.
  apply RegisterPath_blank_locks; [reflexivity | discriminate | reflexivity].
Defined.

Section GateGrants.
Context {cfg : Build}.

Lemma occurs_inside (sub w1 s w2 : Str) :
  occurs sub s = true -> occurs sub (w1 ++ s ++ w2) = true.
Proof.
  rewrite !occurs_spec. intros (l & r & ->).
  exists (w1 ++ l), (r ++ w2). now rewrite <- !app_assoc.
Qed.

Lemma occurs_Trimmed_back (sub s : Str) :
  occurs sub (Trimmed s) = true -> occurs sub s = true.
Proof.
  intros H. destruct (trim_front_suffix s) as [w1 E1].
  destruct (trim_back_prefix (trim_front s)) as [w2 E2].
  rewrite E1, E2. apply occurs_inside. exact H.
Qed.

Lemma occurs_dotdot_Replaced_back (s : Str) :
  occurs (str "..") (Replaced s "\" "/") = true -> occurs (str "..") s = true.
Proof.
  rewrite !occurs_spec. intros (l & r & E). unfold Replaced in E.
  apply map_eq_app in E as (l1 & l2 & -> & _ & E).
  destruct l2 as [|a [|b r2]]; try discriminate.
  cbn [map str list_ascii_of_string app] in E. injection E as Ea Eb _.
  exists l1, r2.
  destruct (Ascii.eqb_spec a "\"); [discriminate|].
  destruct (Ascii.eqb_spec b "\"); [discriminate|]. now subst.
Qed.

Lemma occurs_dotdot_before_slash (t : Str) :
  occurs (str "..") (t ++ ["/"]) = true -> occurs (str "..") t = true.
Proof.
  rewrite !occurs_spec. intros (l & r & E).
  destruct (snoc_cases r) as [-> | (r' & y & ->)].
  - exfalso. change (l ++ str ".." ++ []) with (l ++ ["."; "."]) in E.
    replace (l ++ ["."; "."]) with ((l ++ ["."]) ++ ["."]) in E
      by now rewrite <- app_assoc.
    apply app_inj_tail in E as [_ E]. discriminate.
  - exists l, r'. rewrite !app_assoc in E. apply app_inj_tail in E as [E _].
    now rewrite !app_assoc.
Qed.

(** [AddTrailingSlash] neither removes nor introduces a [..]. *)
Lemma Contains_dotdot_AddTrailingSlash (p : Str) :
  Contains (AddTrailingSlash p) (str "..") = Contains p (str "..").
Proof.
  unfold Contains. cbn [Empty str list_ascii_of_string negb andb].
  change ["."; "."] with (str "..").
  destruct (occurs (str "..") p) eqn:E.
  - now apply occurs_dotdot_AddTrailingSlash.
  - apply not_true_is_false. intros H. rewrite <- not_true_iff_false in E. apply E.
    apply occurs_Trimmed_back, occurs_dotdot_Replaced_back.
    unfold AddTrailingSlash in H.
    destruct (negb _ && negb _); [now apply occurs_dotdot_before_slash | exact H].
Qed.

(** A path that begins with a registered directory still begins with it
    after [AddTrailingSlash]. *)
Lemma AddTrailingSlash_below (dir q : Str) :
  Trimmed dir <> [] ->
  exists r, AddTrailingSlash (AddTrailingSlash dir ++ q) = AddTrailingSlash dir ++ r.
Proof.
  intros Hne.
  destruct (AddTrailingSlash_facts dir) as (_ & Hshape & _ & _ & Hempty).
  destruct (AddTrailingSlash_shape dir) as [_ (H1 & H2 & H3)].
  destruct Hshape as [E | [d E]]; [now apply Hempty in E|].
  set (a := AddTrailingSlash dir) in *.
  assert (Ha : a <> []) by (rewrite E; now destruct d).
  unfold AddTrailingSlash at 1.
  assert (Ht : Replaced (Trimmed (a ++ q)) "\" "/" = a ++ Replaced (trim_back q) "\" "/").
  { rewrite Trimmed_unfold, trim_front_app by assumption.
    rewrite E, <- app_assoc. cbn [app]. rewrite trim_back_keep by reflexivity.
    change (d ++ "/" :: trim_back q) with (d ++ ["/"] ++ trim_back q).
    rewrite app_assoc, <- E, Replaced_app, H3. reflexivity. }
  rewrite Ht. destruct (negb _ && negb _).
  - exists (Replaced (trim_back q) "\" "/" ++ ["/"]). now rewrite app_assoc.
  - now exists (Replaced (trim_back q) "\" "/").
Qed.

(** **** X15: what a registration grants.  After [RegisterPath] of a
    directory that is not blank, the access check passes for that directory
    and for every path written as its [AddTrailingSlash] form followed by
    anything, as long as the path holds no [..]. *)
Theorem RegisterPath_grants (fs : FileSystem) (dir q : Str) :
  Trimmed dir <> [] ->
  Contains (AddTrailingSlash dir ++ q) (str "..") = false ->
  CheckAccess (RegisterPath fs dir) dir = true
  /\ CheckAccess (RegisterPath fs dir) (AddTrailingSlash dir ++ q) = true.
Proof.
  intros Hne Hdots.
  assert (Hdir : dir <> []) by (intros ->; now apply Hne).
  pose proof (@RegisterPath_registers fs dir Hdir) as Hreg.
  assert (Hne' : allowedPaths_ (RegisterPath fs dir) <> [])
    by (intros H; rewrite H in Hreg; contradiction).
  destruct (AddTrailingSlash_facts dir) as (_ & _ & _ & _ & Hempty).
  assert (Ha : AddTrailingSlash dir <> []) by (intros H; now apply Hempty in H).
  assert (Hd : Contains (AddTrailingSlash dir) (str "..") = false).
  { apply not_true_is_false. intros H. rewrite <- not_true_iff_false in Hdots.
    apply Hdots. unfold Contains in *. cbn [Empty str list_ascii_of_string negb andb] in *.
    rewrite <- (app_nil_l (AddTrailingSlash dir ++ q)). now apply occurs_inside. }
  rewrite !CheckAccess_restricted by assumption. split.
  - rewrite Hd. cbn [negb andb]. apply existsb_exists.
    exists (AddTrailingSlash dir). split; [exact Hreg|].
    rewrite <- (app_nil_r (AddTrailingSlash dir)) at 1.
    now rewrite Find_self_prefix.
  - rewrite Contains_dotdot_AddTrailingSlash, Hdots. cbn [negb andb].
    apply existsb_exists. exists (AddTrailingSlash dir). split; [exact Hreg|].
    destruct (AddTrailingSlash_below q Hne) as [r ->].
    now rewrite Find_self_prefix.
Qed.

End GateGrants.

(** The theorem at [/safe] and [x/y.cfg]. *)
Lemma RegisterPath_grants_witness :
     CheckAccess (RegisterPath new_FileSystem (str "/safe")) (str "/safe") = true
  /\ CheckAccess (RegisterPath new_FileSystem (str "/safe")) (str "/safe/x/y.cfg") = true.
Proof.
  apply (@RegisterPath_grants new_FileSystem (str "/safe") (str "x/y.cfg")).
  - discriminate.
  - reflexivity.
Defined.

(* ================================================================== *)
(** ** More on asynchronous requests *)

Section AsyncMore.

Lemma next_request_id_step (k : Z) :
  (0 <= k)%Z ->
  next_request_id (1 + k mod (M_MAX_UNSIGNED - 1))
  = (1 + (k + 1) mod (M_MAX_UNSIGNED - 1))%Z.
Proof.
  intros Hk. unfold next_request_id, AsyncExecRequest_ctor, to_unsigned, M_MAX_UNSIGNED.
  cbn [snd]. change (4294967295 - 1)%Z with 4294967294%Z. change (2 ^ 32)%Z with 4294967296%Z.
  pose proof (Z.mod_pos_bound k 4294967294 eq_refl) as Hb.
  rewrite (Z.mod_small (1 + k mod 4294967294 + 1)) by lia.
  destruct (Z.eqb_spec (1 + k mod 4294967294 + 1) 4294967295) as [E | E].
  - symmetry. replace ((k + 1) mod 4294967294)%Z with 0%Z; [reflexivity|].
    symmetry. rewrite <- Z.add_mod_idemp_l by lia.
    replace (k mod 4294967294)%Z with 4294967293%Z by lia. reflexivity.
  - rewrite <- (Z.add_mod_idemp_l k 1) by lia.
    rewrite (Z.mod_small (k mod 4294967294 + 1)) by lia. lia.
Qed.

(** **** X16: the ids the constructor steps through.  Starting from 1,
    [n] constructions that share one counter by reference leave
    [1 + n mod (M_MAX_UNSIGNED - 1)] in it: the counter runs through
    1, 2, ..., [M_MAX_UNSIGNED - 1] and back to 1, and is never 0 and never
    the invalid id [M_MAX_UNSIGNED]. *)
Theorem request_ids_cycle (n : nat) :
  Nat.iter n next_request_id 1%Z = (1 + Z.of_nat n mod (M_MAX_UNSIGNED - 1))%Z
  /\ (1 <= Nat.iter n next_request_id 1 < M_MAX_UNSIGNED)%Z.
Proof.
  assert (H : Nat.iter n next_request_id 1%Z = (1 + Z.of_nat n mod (M_MAX_UNSIGNED - 1))%Z).
  { induction n as [|n IH]; [reflexivity|].
    rewrite Nat.iter_succ, IH, next_request_id_step by lia.
    now rewrite Nat2Z.inj_succ. }
  split; [exact H|]. rewrite H.
  pose proof (Z.mod_pos_bound (Z.of_nat n) (M_MAX_UNSIGNED - 1) eq_refl).
  unfold M_MAX_UNSIGNED in *. lia.
Qed.

Lemma drain_queue_spec (queue : list AsyncExecRequest) :
  drain_queue queue
  = (map finished_event (filter completed_ queue),
     filter (fun r => negb (completed_ r)) queue).
Proof.
  induction queue as [|request rest IH]; [reflexivity|].
  cbn [drain_queue filter]. rewrite IH.
  destruct (completed_ request); reflexivity.
Qed.

(** **** X17: one drain of the queue.  [HandleBeginFrame] sends one event
    for each completed request, in queue order, carrying its id and exit
    code; the requests still running stay queued in their order; no request
    is lost or sent twice; and a second drain right after sends nothing and
    leaves the queue as it is. *)
Theorem HandleBeginFrame_drains (fs : FileSystem) :
  let events := fst (HandleBeginFrame fs) in
  let fs' := snd (HandleBeginFrame fs) in
  events = map finished_event (filter completed_ (asyncExecQueue_ fs))
  /\ asyncExecQueue_ fs' = filter (fun r => negb (completed_ r)) (asyncExecQueue_ fs)
  /\ (length events + length (asyncExecQueue_ fs') = length (asyncExecQueue_ fs))%nat
  /\ Forall (fun r => completed_ r = false) (asyncExecQueue_ fs')
  /\ HandleBeginFrame fs' = ([], fs')
  /\ allowedPaths_ fs' = allowedPaths_ fs
  /\ nextAsyncExecID_ fs' = nextAsyncExecID_ fs.
Proof.
  unfold HandleBeginFrame. rewrite drain_queue_spec. cbn [fst snd asyncExecQueue_].
  set (done := filter completed_ (asyncExecQueue_ fs)).
  set (pending := filter (fun r => negb (completed_ r)) (asyncExecQueue_ fs)).
  assert (Hpending : Forall (fun r => completed_ r = false) pending).
  { apply Forall_forall. intros r Hr. apply filter_In in Hr as [_ Hr].
    now apply negb_true_iff in Hr. }
  repeat split.
  - rewrite length_map. unfold done, pending. clear.
    induction (asyncExecQueue_ fs) as [|r q IH]; [reflexivity|].
    simpl. destruct (completed_ r); simpl; lia.
  - exact Hpending.
  - rewrite drain_queue_spec. cbn [asyncExecQueue_].
    assert (E1 : filter completed_ pending = []).
    { clear -Hpending. induction Hpending as [|r q Hr _ IH]; [reflexivity|].
      cbn [filter]. now rewrite Hr. }
    assert (E2 : filter (fun r => negb (completed_ r)) pending = pending).
    { clear -Hpending. induction Hpending as [|r q Hr _ IH]; [reflexivity|].
      cbn [filter]. rewrite Hr. cbn [negb]. now rewrite IH. }
    now rewrite E1, E2.
Qed.

End AsyncMore.

(* ================================================================== *)
(** ** External commands under a whitelist *)

Section ExecutionFacts.
Context {cfg : Build} {B : Type} {P : Physfs B}.
Variable DoSystemCommand : Str -> bool -> M B Z.
Variable DoSystemRun : Str -> list Str -> M B Z.

(** **** X18: a registration switches external execution off.  After
    [RegisterPath] of any non-empty path, [SystemCommand] and [SystemRun]
    return -1 and the two asynchronous calls return the invalid id
    [M_MAX_UNSIGNED]; the host is not asked to run anything (the answer does
    not depend on what the host would do), the queue and the backend stay as
    they are, and a console command only writes the refusal to the log. *)
Theorem RegisterPath_disables_execution (fs : FileSystem) (pathName : Str) (w : World B) :
  pathName <> [] ->
  let fs' := RegisterPath fs pathName in
  let refused :=
    {| physfs := physfs w;
       log := log w ++ [(LOG_ERROR, str "Executing an external command is not allowed")];
       calls := calls w |} in
  (forall commandLine redirect,
      SystemCommand DoSystemCommand fs' commandLine redirect w = ((-1)%Z, refused))
  /\ (forall fileName arguments,
        SystemRun DoSystemRun fs' fileName arguments w = ((-1)%Z, refused))
  /\ (forall commandLine,
        fst (SystemCommandAsync fs' commandLine w) = (M_MAX_UNSIGNED, fs')
        /\ physfs (snd (SystemCommandAsync fs' commandLine w)) = physfs w)
  /\ (forall fileName arguments,
        fst (SystemRunAsync fs' fileName arguments w) = (M_MAX_UNSIGNED, fs')
        /\ physfs (snd (SystemRunAsync fs' fileName arguments w)) = physfs w)
  /\ (forall command,
        HandleConsoleCommand DoSystemCommand fs' (str "FileSystem") command w = (tt, refused)).
Proof.
  intros Hne fs' refused.
  assert (Hno : NoPaths (allowedPaths_ fs') = false).
  { pose proof (@RegisterPath_registers fs pathName Hne) as H. fold fs' in H.
    destruct (allowedPaths_ fs'); [contradiction | reflexivity]. }
  repeat split.
  - unfold SystemCommand. now rewrite Hno.
  - unfold SystemRun. now rewrite Hno.
  - unfold SystemCommandAsync. rewrite Hno. now destruct URHO3D_THREADING.
  - unfold SystemCommandAsync. rewrite Hno. now destruct URHO3D_THREADING.
  - unfold SystemRunAsync. rewrite Hno. now destruct URHO3D_THREADING.
  - unfold SystemRunAsync. rewrite Hno. now destruct URHO3D_THREADING.
  - unfold HandleConsoleCommand, SystemCommand. now rewrite Hno.
Qed.

End ExecutionFacts.

(** The theorem on a host that would answer 0 to every command. *)
Lemma RegisterPath_disables_execution_witness :
  SystemCommand (B := MemFS.t) (fun _ _ w => (0%Z, w))
    (RegisterPath new_FileSystem (str "/safe")) (str "rm -rf /") false empty_world
  = ((-1)%Z,
     {| physfs := physfs empty_world;
        log := [(LOG_ERROR, str "Executing an external command is not allowed")];
        calls := [] |}).
Proof.
  destruct (RegisterPath_disables_execution (cfg := posix_build) (B := MemFS.t)
              (fun _ _ w => (0%Z, w)) (fun _ _ w => (0%Z, w))
              new_FileSystem (pathName := str "/safe") empty_world) as [H _];
    [discriminate | apply H].
Defined.

(* ================================================================== *)
(** ** More on the directory scan *)

Section ScanMore.
Context {cfg : Build} {B : Type} {P : Physfs B}.

Lemma EndsWith_app (d s p : Str) : EndsWith s p = true -> EndsWith (d ++ s) p = true.
Proof.
  unfold EndsWith. destruct (Empty p); [discriminate|]. cbn [negb andb].
  rewrite rev_app_distr, !prefixb_spec. intros [r ->].
  exists (r ++ rev d). now rewrite app_assoc.
Qed.

Lemma Empty_nil (s : Str) : Empty s = true -> s = [].
Proof. now destruct s. Qed.

(** One iteration of the loop either leaves the vector as it is, or pushes
    the entry and nothing else, or hands the vector over to the recursive
    call (with the entry pushed or not). *)
Lemma ScanEntry_cases
    (rec : list Str -> Str -> option (list Str)) (b : B) (result : list Str)
    (path deltaPath filterExtension : Str) (flags : Z) (recursive : bool) (fileName : Str) :
  let pushed := if scan_pushes b path filterExtension flags fileName
                then result ++ [deltaPath ++ fileName] else result in
  ScanEntry rec b result path deltaPath filterExtension flags recursive fileName = Some pushed
  \/ (recursive = true
      /\ ScanEntry rec b result path deltaPath filterExtension flags recursive fileName
         = rec pushed (path ++ fileName)).
Proof.
  unfold ScanEntry, ScanVisibleEntry, scan_pushes.
  destruct (StartsWith fileName (str ".") && negb (has_flag flags SCAN_HIDDEN));
    cbn [negb andb]; [now left|].
  destruct (PHYSFS_stat b (path ++ str "/" ++ fileName)) as [stat|]; [|now left].
  destruct (filetype stat);
    try (destruct (has_flag flags SCAN_FILES); cbn [andb]; [|now left];
         destruct (Empty filterExtension || EndsWith fileName filterExtension); now left).
  destruct recursive; [right; split; reflexivity | now left].
Qed.

Lemma ScanEntries_stops
    (rec : list Str -> Str -> option (list Str)) (b : B)
    (path deltaPath filterExtension : Str) (flags : Z) (recursive : bool) (array : list Str) :
  fold_left
    (fun acc fileName =>
       match acc with
       | None => None
       | Some result =>
           ScanEntry rec b result path deltaPath filterExtension flags recursive fileName
       end) array None = None.
Proof. induction array as [|x array IH]; [reflexivity | exact IH]. Qed.

Lemma ScanEntries_cons
    (rec : list Str -> Str -> option (list Str)) (b : B)
    (path deltaPath filterExtension : Str) (flags : Z) (recursive : bool)
    (x : Str) (array : list Str) (result : list Str) :
  ScanEntries rec b path deltaPath filterExtension flags recursive (x :: array) result
  = match ScanEntry rec b result path deltaPath filterExtension flags recursive x with
    | Some result' =>
        ScanEntries rec b path deltaPath filterExtension flags recursive array result'
    | None => None
    end.
Proof.
  unfold ScanEntries. cbn [fold_left].
  destruct (ScanEntry rec b result path deltaPath filterExtension flags recursive x);
    [reflexivity | apply ScanEntries_stops].
Qed.

(** The loop without recursion: the names it pushes are the names of the
    listing that [scan_pushes] lets through, in the order of the listing. *)
Lemma ScanEntries_flat
    (rec : list Str -> Str -> option (list Str)) (b : B)
    (path deltaPath filterExtension : Str) (flags : Z) :
  forall (array : list Str) (result : list Str),
    ScanEntries rec b path deltaPath filterExtension flags false array result
    = Some (result ++ map (app deltaPath)
                        (List.filter (scan_pushes b path filterExtension flags) array)).
Proof.
  induction array as [|x array IH]; intros result.
  - cbn. now rewrite app_nil_r.
  - rewrite ScanEntries_cons.
    destruct (ScanEntry_cases rec b result path deltaPath filterExtension flags false x)
      as [E | [E _]]; [|discriminate].
    rewrite E, IH. cbn [List.filter].
    destruct (scan_pushes b path filterExtension flags x); [|reflexivity].
    cbn [map]. now rewrite <- app_assoc.
Qed.

(** **** X19: a scan without recursion.  [ScanDir] with [recursive = false]
    needs no recursive call and always returns: for a path that passes
    [CheckAccess] the result is the backend's listing of the directory, in
    the backend's order and as bare names (nothing is put in front of them),
    cut down to the names the flags and the filter let through; the stat of a
    name is asked for under the directory, a slash and the name.  For any
    other path the result is empty. *)
Theorem ScanDir_flat (fuel : nat) (fs : FileSystem) (b : B) (pathName filter : Str)
    (flags : Z) :
  let path := GetNativePath (AddTrailingSlash pathName) in
  ScanDir (S fuel) fs b pathName filter flags false
  = Some (if CheckAccess fs pathName
          then List.filter (scan_pushes b path (filter_extension filter) flags)
                           (PHYSFS_enumerateFiles b path)
          else []).
Proof.
  intros path. unfold ScanDir. destruct (CheckAccess fs pathName); [|reflexivity].
  cbn [ScanDirInternal]. cbv zeta.
  destruct (AddTrailingSlash_facts pathName) as (-> & _).
  rewrite Z.ltb_irrefl, ScanEntries_flat. cbn [app]. fold path.
  unfold filter_extension. f_equal.
  now rewrite map_id.
Qed.

(** The loop pushes only what [scan_pushes] lets through, whatever the
    recursive call does, as long as the call itself only appends. *)
Lemma ScanEntries_appends (Q : Str -> Prop)
    (rec : list Str -> Str -> option (list Str)) (b : B)
    (path deltaPath filterExtension : Str) (flags : Z) (recursive : bool) :
  (forall r p r', rec r p = Some r' -> exists a, r' = r ++ a /\ Forall Q a) ->
  (forall fileName, In fileName (PHYSFS_enumerateFiles b path) ->
                    scan_pushes b path filterExtension flags fileName = true ->
                    Q (deltaPath ++ fileName)) ->
  forall (array : list Str) (result result' : list Str),
    (forall x, In x array -> In x (PHYSFS_enumerateFiles b path)) ->
    ScanEntries rec b path deltaPath filterExtension flags recursive array result = Some result' ->
    exists a, result' = result ++ a /\ Forall Q a.
Proof.
  intros Hrec Hpush.
  induction array as [|x array IH]; intros result result' Hsub.
  - intros E. injection E as <-. exists []. split; [now rewrite app_nil_r | constructor].
  - rewrite ScanEntries_cons.
    assert (Hx : exists a, (if scan_pushes b path filterExtension flags x
                            then result ++ [deltaPath ++ x] else result) = result ++ a
                           /\ Forall Q a).
    { destruct (scan_pushes b path filterExtension flags x) eqn:Ep.
      - exists [deltaPath ++ x]. split; [reflexivity|].
        constructor; [|constructor]. apply Hpush; [apply Hsub; now left | exact Ep].
      - exists []. split; [now rewrite app_nil_r | constructor]. }
    destruct Hx as (a1 & E1 & Q1).
    assert (Hstep : forall r1,
               ScanEntry rec b result path deltaPath filterExtension flags recursive x = Some r1 ->
               exists a, r1 = result ++ a /\ Forall Q a).
    { intros r1 Er.
      destruct (ScanEntry_cases rec b result path deltaPath filterExtension flags recursive x)
        as [E | [_ E]]; rewrite E in Er.
      - injection Er as <-. now exists a1.
      - apply Hrec in Er as (a2 & -> & Q2). exists (a1 ++ a2).
        split; [now rewrite E1, app_assoc | now apply Forall_app]. }
    destruct (ScanEntry rec b result path deltaPath filterExtension flags recursive x)
      as [r1|]; [|discriminate].
    destruct (Hstep r1 eq_refl) as (a & -> & Qa). intros E.
    apply IH in E as (a' & -> & Qa'); [|intros y Hy; apply Hsub; now right].
    exists (a ++ a'). split; [now rewrite app_assoc | now apply Forall_app].
Qed.

Lemma scan_pushes_reports (b : B) (path deltaPath filterExtension : Str) (flags : Z)
    (fileName : Str) :
  In fileName (PHYSFS_enumerateFiles b path) ->
  scan_pushes b path filterExtension flags fileName = true ->
  reports_entry b filterExtension flags (deltaPath ++ fileName).
Proof.
  intros Hin. unfold scan_pushes. rewrite andb_true_iff. intros [_ H].
  destruct (PHYSFS_stat b (path ++ str "/" ++ fileName)) as [stat|] eqn:Es; [|discriminate].
  exists deltaPath, path, fileName, stat. repeat split; [exact Hin | exact Es |].
  destruct (filetype stat); try exact H;
    (apply andb_true_iff in H as [Hf He]; split; [exact Hf|];
     apply orb_true_iff in He as [He | He];
     [left; now apply Empty_nil | right; now apply EndsWith_app]).
Qed.

Lemma ScanDirInternal_reports (b : B) (startPath filter : Str) (flags : Z) (recursive : bool) :
  forall (fuel : nat) (result : list Str) (path : Str) (result' : list Str),
    ScanDirInternal fuel b result path startPath filter flags recursive = Some result' ->
    exists a, result' = result ++ a
              /\ Forall (reports_entry b (filter_extension filter) flags) a.
Proof.
  induction fuel as [|fuel IH]; intros result path result'; [discriminate|].
  cbn [ScanDirInternal]. cbv zeta. intros E.
  eapply ScanEntries_appends; [| | |exact E].
  - intros r p r' Hr. eapply IH; exact Hr.
  - intros fileName Hin Hp. eapply scan_pushes_reports; [exact Hin | exact Hp].
  - intros x Hx; exact Hx.
Qed.

(** **** X20: what a scan reports.  Every string [ScanDir] returns, with or
    without recursion, stands for an entry of some listing of the backend
    that the backend can stat: a directory only when the flags have
    [SCAN_DIRS], anything else only when they have [SCAN_FILES], and then the
    string ends with the filter extension when there is one.  So a scan for
    files with a filter such as [*.png] returns only strings that end in
    [.png], and a filter with a star after its last dot filters nothing. *)
Theorem ScanDir_reports (fuel : nat) (fs : FileSystem) (b : B) (pathName filter : Str)
    (flags : Z) (recursive : bool) (result : list Str) :
  ScanDir fuel fs b pathName filter flags recursive = Some result ->
  Forall (reports_entry b (filter_extension filter) flags) result
  /\ (has_flag flags SCAN_DIRS = false -> filter_extension filter <> [] ->
      Forall (fun r => EndsWith r (filter_extension filter) = true) result)
  /\ (has_flag flags SCAN_DIRS = false -> has_flag flags SCAN_FILES = false -> result = []).
Proof.
  unfold ScanDir. intros E.
  assert (H : Forall (reports_entry b (filter_extension filter) flags) result).
  { destruct (CheckAccess fs pathName).
    - apply ScanDirInternal_reports in E as (a & -> & Ha). exact Ha.
    - injection E as <-. constructor. }
  split; [exact H | split].
  - intros Hd Hne. eapply Forall_impl; [|exact H].
    intros r (deltaPath & path & fileName & stat & _ & _ & _ & Hk).
    destruct (filetype stat);
      match type of Hk with
      | _ /\ _ => destruct Hk as [_ [Hk | Hk]]; [contradiction | exact Hk]
      | _ => congruence
      end.
  - intros Hd Hf. destruct result as [|r result]; [reflexivity|].
    apply Forall_inv in H. destruct H as (deltaPath & path & fileName & stat & _ & _ & _ & Hk).
    destruct (filetype stat);
      match type of Hk with
      | _ /\ _ => destruct Hk as [Hk _]; congruence
      | _ => congruence
      end.
Qed.

(** The loop does not read the vector it pushes to. *)
Lemma ScanEntries_frame
    (rec : list Str -> Str -> option (list Str)) (b : B)
    (path deltaPath filterExtension : Str) (flags : Z) (recursive : bool) :
  (forall r p, rec r p = option_map (app r) (rec [] p)) ->
  forall (array : list Str) (result : list Str),
    ScanEntries rec b path deltaPath filterExtension flags recursive array result
    = option_map (app result)
        (ScanEntries rec b path deltaPath filterExtension flags recursive array []).
Proof.
  intros Hrec.
  assert (Hstep : forall x result,
             ScanEntry rec b result path deltaPath filterExtension flags recursive x
             = option_map (app result)
                 (ScanEntry rec b [] path deltaPath filterExtension flags recursive x)).
  { intros x result. unfold ScanEntry, ScanVisibleEntry.
    destruct (StartsWith x (str ".") && negb (has_flag flags SCAN_HIDDEN));
      [cbn; now rewrite app_nil_r|].
    destruct (PHYSFS_stat b (path ++ str "/" ++ x)) as [stat|];
      [|cbn; now rewrite app_nil_r].
    destruct (filetype stat);
      try (destruct (has_flag flags SCAN_FILES);
           [destruct (Empty filterExtension || EndsWith x filterExtension)|];
           cbn; now rewrite ?app_nil_r).
    destruct recursive.
    - rewrite Hrec, (Hrec (if has_flag flags SCAN_DIRS then [] ++ _ else [])).
      destruct (rec [] (path ++ x)) as [r|]; [|reflexivity].
      destruct (has_flag flags SCAN_DIRS); cbn; now rewrite <- ?app_assoc.
    - destruct (has_flag flags SCAN_DIRS); cbn; now rewrite ?app_nil_r. }
  induction array as [|x array IH]; intros result.
  - cbn. now rewrite app_nil_r.
  - rewrite !ScanEntries_cons, Hstep.
    destruct (ScanEntry rec b [] path deltaPath filterExtension flags recursive x) as [r|];
      [|reflexivity].
    cbn [option_map]. rewrite IH, (IH r).
    destruct (ScanEntries rec b path deltaPath filterExtension flags recursive array [])
      as [r'|]; [|reflexivity].
    cbn. now rewrite app_assoc.
Qed.

(** More depth for the recursive call changes nothing once the loop has
    returned. *)
Lemma ScanEntries_deeper
    (rec1 rec2 : list Str -> Str -> option (list Str)) (b : B)
    (path deltaPath filterExtension : Str) (flags : Z) (recursive : bool) :
  (forall r p r', rec1 r p = Some r' -> rec2 r p = Some r') ->
  forall (array : list Str) (result result' : list Str),
    ScanEntries rec1 b path deltaPath filterExtension flags recursive array result = Some result' ->
    ScanEntries rec2 b path deltaPath filterExtension flags recursive array result = Some result'.
Proof.
  intros Hrec.
  assert (Hstep : forall x result r1,
             ScanEntry rec1 b result path deltaPath filterExtension flags recursive x = Some r1 ->
             ScanEntry rec2 b result path deltaPath filterExtension flags recursive x = Some r1).
  { intros x result r1. unfold ScanEntry, ScanVisibleEntry.
    destruct (StartsWith x (str ".") && negb (has_flag flags SCAN_HIDDEN)); [easy|].
    destruct (PHYSFS_stat b (path ++ str "/" ++ x)) as [stat|]; [|easy].
    destruct (filetype stat); try easy.
    destruct recursive; [apply Hrec | easy]. }
  induction array as [|x array IH]; intros result result'; [easy|].
  rewrite !ScanEntries_cons.
  destruct (ScanEntry rec1 b result path deltaPath filterExtension flags recursive x)
    as [r1|] eqn:E1; [|discriminate].
  rewrite (Hstep _ _ _ E1). apply IH.
Qed.

(** **** X21: the scan and the vector it fills.  [ScanDirInternal] does not
    read the vector it is given: it returns that vector followed by what it
    returns on an empty one.  Once it has returned within some depth of
    recursion, it returns the same within any larger depth. *)
Theorem ScanDirInternal_frame (fuel : nat) (b : B) (result : list Str)
    (path startPath filter : Str) (flags : Z) (recursive : bool) :
  ScanDirInternal fuel b result path startPath filter flags recursive
  = option_map (app result)
      (ScanDirInternal fuel b [] path startPath filter flags recursive)
  /\ (forall result' more,
         ScanDirInternal fuel b result path startPath filter flags recursive = Some result' ->
         (fuel <= more)%nat ->
         ScanDirInternal more b result path startPath filter flags recursive = Some result').
Proof.
  split.
  - revert result path. induction fuel as [|fuel IH]; intros result path; [reflexivity|].
    cbn [ScanDirInternal]. cbv zeta. apply ScanEntries_frame. intros r p. apply IH.
  - revert result path. induction fuel as [|fuel IH]; intros result path result' more;
      [discriminate|].
    destruct more as [|more]; [lia|]. intros E Hle.
    cbn [ScanDirInternal] in *. cbv zeta in *.
    eapply ScanEntries_deeper; [|exact E].
    intros r p r' Hr. apply (IH _ _ _ more Hr). lia.
Qed.

End ScanMore.

(** The scenario of the design document: the flat listing, and the scan for
    [*.png] files. *)
Lemma ScanDir_reports_witness :
  Forall (fun r => EndsWith r (str ".png") = true) [str "a.png"; str "sub/d.png"].
Proof.
  destruct (ScanDir_reports (cfg := posix_build) (P := MemFS.backend) (fuel := 5)
              (fs := new_FileSystem) (b := scan_scenario) (pathName := str "/")
              (filter := str "*.png") (flags := SCAN_FILES) (recursive := true)
              (result := [str "a.png"; str "sub/d.png"]) eq_refl) as (_ & H & _).
  apply H; [reflexivity | discriminate].
Defined.

(* ================================================================== *)
(** ** Directory creation and the whitelist *)

Section CreateDirAccess.
Context {cfg : Build} {B : Type} {P : Physfs B}.

Lemma CreateDir_mkdir_allowed (fs : FileSystem) :
  forall (n : nat) (pathName : Str) (w w' : World B) (ok : bool),
    CreateDir n fs pathName w = Some (ok, w') ->
    exists t, calls w' = calls w ++ t /\ Forall (mkdir_allowed fs) t.
Proof.
  induction n as [|n IH]; intros pathName w w' ok Hrun; [discriminate|].
  cbn [CreateDir] in Hrun.
  destruct (CheckAccess fs pathName) eqn:Ha; cbn [negb] in Hrun.
  2:{ injection Hrun as <- <-. exists []. cbn. rewrite app_nil_r. split; [reflexivity | constructor]. }
  assert (Hlast : forall w1 t1,
             calls w1 = calls w ++ t1 -> Forall (mkdir_allowed fs) t1 ->
             Some (CreateDir_mkdir pathName w1) = Some (ok, w') ->
             exists t, calls w' = calls w ++ t /\ Forall (mkdir_allowed fs) t).
  { intros w1 t1 E1 H1 E. injection E as E.
    pose proof (CreateDir_mkdir_calls pathName w1) as C. rewrite E in C. cbn [snd] in C.
    exists (t1 ++ [CallMkdir (GetNativePath (RemoveTrailingSlash pathName))]).
    split; [now rewrite C, E1, app_assoc|].
    apply Forall_app. split; [exact H1|]. constructor; [|constructor].
    now exists pathName. }
  assert (Hnil : calls w = calls w ++ []) by now rewrite app_nil_r.
  destruct ((1 <? Length (GetParentPath pathName))%Z
            && negb (DirExists fs (physfs w) (GetParentPath pathName))).
  2:{ now apply (Hlast w [] Hnil (Forall_nil _)). }
  destruct (CreateDir n fs (GetParentPath pathName) w) as [[ok1 w1]|] eqn:E; [|discriminate].
  destruct (IH _ _ _ _ E) as (t1 & E1 & H1).
  destruct ok1.
  - now apply (Hlast w1 t1).
  - injection Hrun as <- <-. now exists t1.
Qed.

(** **** X22: [CreateDir] stays inside the whitelist.  Every directory the
    call asks the backend to create, for the path or for a parent, is the
    native form of a path that passes [CheckAccess]; a call on a path that
    fails the check returns [false], touches neither the backend nor its
    state, and leaves one line in the log. *)
Theorem CreateDir_inside_whitelist (fuel : nat) (fs : FileSystem) (pathName : Str)
    (w w' : World B) (ok : bool) :
  CreateDir fuel fs pathName w = Some (ok, w') ->
  (exists t, calls w' = calls w ++ t /\ Forall (mkdir_allowed fs) t)
  /\ (CheckAccess fs pathName = false ->
      ok = false /\ physfs w' = physfs w /\ calls w' = calls w
      /\ log w' = log w ++ [(LOG_ERROR, str "Access denied to " ++ pathName)]).
Proof.
  intros Hrun. split; [now apply (CreateDir_mkdir_allowed Hrun)|].
  intros Ha. destruct fuel as [|fuel]; [discriminate|].
  cbn [CreateDir] in Hrun. rewrite Ha in Hrun. cbn [negb] in Hrun.
  injection Hrun as <- <-. repeat split.
Qed.

End CreateDirAccess.

(** The theorem under the whitelist [/safe/], on an empty tree. *)
Lemma CreateDir_inside_whitelist_witness :
  exists w',
    CreateDir (cfg := posix_build) (P := MemFS.backend) 9 restricted_fs (str "/safe/a/b")
      empty_world = Some (true, w')
    /\ calls w' = [CallMkdir (str "/safe"); CallMkdir (str "/safe/a");
                   CallMkdir (str "/safe/a/b")]
    /\ Forall (mkdir_allowed (cfg := posix_build) restricted_fs) (calls w').
Proof.
  eexists. split; [vm_compute; reflexivity|]. split; [reflexivity|].
  match goal with
  | |- Forall _ (calls ?w') =>
      destruct (CreateDir_inside_whitelist (cfg := posix_build) (P := MemFS.backend)
                  (fuel := 9) (fs := restricted_fs) (pathName := str "/safe/a/b")
                  (w := empty_world) (w' := w') (ok := true) eq_refl) as [(t & Et & Ht) _]
  end.
  cbn [calls empty_world MemFS.world app] in Et. rewrite Et. exact Ht.
Defined.

(* ================================================================== *)
(** ** Files, copies and renames under a whitelist *)

Section FileAccess.
Context {cfg : Build} {B : Type} {P : Physfs B}.
Variable CopyData : Str -> Str -> M B bool.

Lemma firstn_without (c : ascii) (n : nat) (s : Str) : ~ In c s -> ~ In c (firstn n s).
Proof.
  intros H Hin. apply H. rewrite <- (firstn_skipn n s). apply in_or_app. now left.
Qed.

(** A name without slash or backslash has no directory part. *)
Lemma GetPath_bare (fileName : Str) :
  ~ In "/" fileName -> ~ In "\" fileName -> GetPath fileName = [].
Proof.
  intros Hs Hb. unfold GetPath, SplitPath, GetInternalPath. rewrite (Replaced_id Hb).
  assert (H2 : forall n, FindLast (Substring2 fileName 0 n) "/" = NPOS).
  { intros n. apply FindLast_absent. unfold Substring2.
    destruct (0 <? Length fileName)%Z; [|intros []].
    now apply firstn_without. }
  rewrite (FindLast_absent Hs). rewrite Z.eqb_refl. cbn [orb negb].
  destruct (negb (FindLast fileName "." =? NPOS)%Z && true).
  - rewrite H2, Z.eqb_refl. reflexivity.
  - rewrite (FindLast_absent Hs), Z.eqb_refl. reflexivity.
Qed.

(** Under a whitelist the empty path is refused. *)
Lemma CheckAccess_nil (fs : FileSystem) :
  NoPaths (allowedPaths_ fs) = false -> CheckAccess fs [] = false.
Proof.
  intros Hno. unfold CheckAccess. rewrite Hno.
  replace (AddTrailingSlash []) with (@nil ascii) by reflexivity.
  cbn [Contains str list_ascii_of_string Empty negb andb occurs prefixb orb].
  clear Hno. induction (allowedPaths_ fs) as [|i l IH]; [reflexivity|].
  cbn [existsb]. rewrite IH. now destruct i.
Qed.

(** **** X23: under a whitelist a bare file name is out of reach.  When some
    path is registered, a file name without slash or backslash has an empty
    directory part, and the empty path passes no whitelist: [FileExists]
    answers [false] whatever the backend holds, and [Delete], [Copy] and
    [Rename] refuse with an access error before they touch the backend or the
    files; [Copy] refuses such a destination as well. *)
Theorem bare_names_denied (fs : FileSystem) (b : B) (fileName other : Str) (w : World B) :
  NoPaths (allowedPaths_ fs) = false ->
  ~ In "/" fileName -> ~ In "\" fileName ->
  let denied :=
    (false, {| physfs := physfs w;
               log := log w ++ [(LOG_ERROR, str "Access denied to " ++ fileName)];
               calls := calls w |}) in
  FileExists fs b fileName = false
  /\ Delete fs fileName w = denied
  /\ Copy CopyData fs fileName other w = denied
  /\ Rename CopyData fs fileName other w = denied
  /\ (CheckAccess fs (GetPath other) = true -> Copy CopyData fs other fileName w = denied).
Proof.
  intros Hno Hs Hb denied.
  assert (Ha : CheckAccess fs (GetPath fileName) = false)
    by (rewrite (GetPath_bare Hs Hb); now apply CheckAccess_nil).
  unfold FileExists, Delete, Copy, Rename. rewrite Ha. cbn [negb].
  repeat split. intros ->. reflexivity.
Qed.

(** **** X24: what [Rename] answers.  [Rename] returns [true] exactly when
    both directory parts pass [CheckAccess], the copy succeeds and the
    backend then fails to delete the source; when the copy succeeds and the
    source is deleted it returns [false].  When a check fails neither the
    copy nor the backend is reached. *)
Theorem Rename_result (fs : FileSystem) (srcFileName destFileName : Str) (w : World B) :
  fst (Rename CopyData fs srcFileName destFileName w)
  = CheckAccess fs (GetPath srcFileName) && CheckAccess fs (GetPath destFileName)
    && fst (CopyData srcFileName destFileName w)
    && (fst (PHYSFS_delete (physfs (snd (CopyData srcFileName destFileName w)))
               srcFileName) =? 0)%Z
  /\ (CheckAccess fs (GetPath srcFileName) && CheckAccess fs (GetPath destFileName) = false ->
      physfs (snd (Rename CopyData fs srcFileName destFileName w)) = physfs w
      /\ calls (snd (Rename CopyData fs srcFileName destFileName w)) = calls w).
Proof.
  unfold Rename, Copy, Delete.
  destruct (CheckAccess fs (GetPath srcFileName)); cbn [negb andb];
    [|split; [reflexivity | intros _; split; reflexivity]].
  destruct (CheckAccess fs (GetPath destFileName)); cbn [negb andb];
    [|split; [reflexivity | intros _; split; reflexivity]].
  split; [|discriminate].
  unfold bind, mutate.
  destruct (CopyData srcFileName destFileName w) as [copied w1]. cbn [fst snd].
  destruct copied; [|reflexivity]. cbn [andb].
  destruct (PHYSFS_delete (physfs w1) srcFileName) as [r b']. cbn [fst].
  destruct (r =? 0)%Z; reflexivity.
Qed.

End FileAccess.

(** The theorem for [notes.txt] under the whitelist [/safe/], with a copy
    that would succeed. *)
Lemma bare_names_denied_witness :
  Delete (P := MemFS.backend) restricted_fs (str "notes.txt") empty_world
  = (false,
     {| physfs := physfs empty_world;
        log := [(LOG_ERROR, str "Access denied to notes.txt")];
        calls := [] |}).
Proof.
  destruct (bare_names_denied (P := MemFS.backend)
              (fun _ _ w => (true, w)) (fs := restricted_fs) (MemFS.make [])
              (fileName := str "notes.txt") (str "/safe/copy.txt") empty_world)
    as (_ & H & _).
  - reflexivity.
  - cbv. intuition discriminate.
  - cbv. intuition discriminate.
  - exact H.
Defined.
